(** * discord-emoji-ranking: the counting pass and the ranking engine

    A shallow embedding of [discord_emoji_ranking/module.py].

    Counters are Python objects that are shared by reference and mutated in
    place, so they live in a store ([heap]) and the lists the cog passes around
    are lists of references ([loc]).  Code that touches the store runs in a
    small state-and-failure monad [M]; [None] stands for a run that raises
    ([KeyError], [IndexError]) or follows a reference that was never
    allocated.  Python integers are unbounded and modelled by [Z]; a [dict] is
    a [gmap], a [set] a [gset]. *)

From stdpp Require Import gmap strings list fin_maps sorting pretty.

Local Open Scope Z_scope.

(** ** The enumerations *)

Module _SortOrder.
Inductive t := ASCENDING | DESCENDING.

#[global] Instance eq_dec : EqDecision t.
Proof. solve_decision. Defined.

Definition parse (value : string) : t :=
  if decide (value = "ascending"%string) then ASCENDING else DESCENDING.

Definition reverse (value : t) : bool :=
  if decide (value = DESCENDING) then true else false.
End _SortOrder.

Module _EmojiCountType.
Inductive t := MESSAGE_CONTENT | MESSAGE_REACTION.

#[global] Instance eq_dec : EqDecision t.
Proof. solve_decision. Defined.

(** The value the enumeration gives each member. *)
Definition value (x : t) : positive :=
  match x with MESSAGE_CONTENT => 1 | MESSAGE_REACTION => 2 end%positive.

Definition of_value (p : positive) : t :=
  match p with 1%positive => MESSAGE_CONTENT | _ => MESSAGE_REACTION end.

#[global] Instance countable : Countable t.
Proof. exact (inj_countable' value of_value ltac:(by intros [])). Defined.

(** Iterating over the enumeration visits the members in definition order. *)
Definition members : list t := [MESSAGE_CONTENT; MESSAGE_REACTION].
End _EmojiCountType.

(** ** What the code reads of the discord.py objects *)

Module Emoji.
(** [discord.Emoji]: a custom emoji of a guild. *)
Record t := { id : Z; name : string }.
End Emoji.

Module User.
(** [discord.User] / [discord.Member]. *)
Record t := { id : Z; bot : bool }.
End User.

Module Reaction.
(** [Reaction.emoji] is a [Union[Emoji, PartialEmoji, str]]: a custom emoji
    the client knows, a custom emoji it does not know, or a unicode emoji. *)
Inductive emoji_t :=
| IsEmoji (e : Emoji.t)
| IsPartialEmoji (id : option Z) (name : string)
| IsStr (s : string).

(** [users] is what iterating [reaction.users()] yields. *)
Record t := { emoji : emoji_t; users : list User.t }.
End Reaction.

Module Message.
Record t := { author : User.t; content : string; reactions : list Reaction.t }.
End Message.

Module Channel.
(** What [channel.history(...)] gives when it is read to the end: the
    messages, or the [discord.Forbidden] it raises. *)
Inductive history_t :=
| Messages (messages : list Message.t)
| Forbidden.

(** A channel of a guild: [is_text] is [isinstance(channel, TextChannel)]. *)
Record t := { id : Z; is_text : bool; history : history_t }.
End Channel.

Module Guild.
Record t := { emojis : list Emoji.t; channels : list Channel.t }.

(** [guild.get_channel(channel_id)]: the channel of that id, if any. *)
Definition get_channel (guild : t) (channel_id : Z) : option Channel.t :=
  snd <$> list_find (λ channel, Channel.id channel = channel_id) (channels guild).
End Guild.

(** ** Python built-ins used by the cog *)

(** [sub in s] on [str]: [sub] occurs in [s] as a contiguous run. *)
Fixpoint str_contains (sub s : string) : bool :=
  String.prefix sub s ||
  match s with
  | EmptyString => false
  | String _ s' => str_contains sub s'
  end.

Section sorted.
Context {A : Type} (key : A → Z).

(** Insertion in front of the first element whose key is not smaller. *)
Fixpoint insert_by (x : A) (l : list A) : list A :=
  match l with
  | [] => [x]
  | y :: l' => if decide (key x ≤ key y) then x :: l else y :: insert_by x l'
  end.

(** A stable ascending sort. *)
Fixpoint stable_sort (l : list A) : list A :=
  match l with
  | [] => []
  | x :: l' => insert_by x (stable_sort l')
  end.

(** [sorted(l, key=key, reverse=reverse)]: the sort is stable, and for
    [reverse=True] the list is reversed, sorted and reversed again, which
    keeps elements with equal keys in their original order. *)
Definition sorted (reverse : bool) (l : list A) : list A :=
  if reverse
  then list.reverse (stable_sort (list.reverse l))
  else stable_sort l.
End sorted.

(** [l[0:stop]]: a negative [stop] counts from the end, and the bounds are
    clipped to the list. *)
Definition slice_to {A} (l : list A) (stop : Z) : list A :=
  if decide (stop < 0)
  then take (Z.to_nat (Z.max 0 (Z.of_nat (length l) + stop))) l
  else take (Z.to_nat stop) l.

(** [enumerate(l)], counting from [start]. *)
Fixpoint enumerate_from {A} (start : nat) (l : list A) : list (nat * A) :=
  match l with
  | [] => []
  | x :: l' => (start, x) :: enumerate_from (S start) l'
  end.

Definition enumerate {A} (l : list A) : list (nat * A) := enumerate_from 0 l.

(** [s[n:]] for [n] that is not negative. *)
Fixpoint str_drop (n : nat) (s : string) : string :=
  match n, s with
  | S n', String _ s' => str_drop n' s'
  | _, _ => s
  end.

(** The text before and after the first occurrence of [sep] in [s]. *)
Fixpoint split_first (sep s : string) : option (string * string) :=
  if String.prefix sep s then Some (EmptyString, str_drop (String.length sep) s)
  else
    match s with
    | EmptyString => None
    | String c s' =>
        match split_first sep s' with
        | Some (before, after) => Some (String c before, after)
        | None => None
        end
    end.

(** [s.partition(sep)]: the part before the first [sep], [sep], and the part
    after it, or [s] and two empty strings when [sep] does not occur; an
    empty [sep] raises [ValueError]. *)
Definition str_partition (sep s : string) : option (string * string * string) :=
  if decide (sep = EmptyString) then None
  else
    match split_first sep s with
    | Some (before, after) => Some (before, sep, after)
    | None => Some (s, EmptyString, EmptyString)
    end.

(** [str(n)] and [f"{n}"] for an [int]. *)
Definition str_of_int (n : Z) : string := pretty n.

(** ** The helpers of the module *)

Definition _get_times_str (count : Z) : string :=
  if decide (count = 1) then "1 time"%string
  else str_of_int count +:+ " times".

Definition _get_rank_str (rank : Z) : string :=
  if decide (rank = 1) then "1st"%string
  else if decide (rank = 2) then "2nd"%string
  else if decide (rank = 3) then "3rd"%string
  else str_of_int rank +:+ "th".

(** ** Counter objects *)

Abbreviation loc := nat (only parsing).

Module _EmojiCounter.
Record t := {
  _emoji : Emoji.t;
  _rank : Z;
  _counts : gmap _EmojiCountType.t Z
}.

Definition with_rank (c : t) (value : Z) : t :=
  {| _emoji := _emoji c; _rank := value; _counts := _counts c |}.

Definition with_counts (c : t) (m : gmap _EmojiCountType.t Z) : t :=
  {| _emoji := _emoji c; _rank := _rank c; _counts := m |}.

(** The object [__init__] builds. *)
Definition __init__ (emoji : Emoji.t) : t :=
  {| _emoji := emoji;
     _rank := 0;
     _counts := list_to_map ((λ x, (x, 0)) <$> _EmojiCountType.members) |}.

(** [sum(self._counts.values())] *)
Definition sum_values (m : gmap _EmojiCountType.t Z) : Z :=
  map_fold (λ _ v acc, acc + v) 0 m.
End _EmojiCounter.

Abbreviation heap := (gmap nat _EmojiCounter.t) (only parsing).

(** ** The monad of code that runs against the store *)

Definition M (A : Type) : Type := heap → option (A * heap).

Definition ret {A} (a : A) : M A := λ h, Some (a, h).

Definition bind {A B} (m : M A) (f : A → M B) : M B :=
  λ h, match m h with Some (a, h') => f a h' | None => None end.

Notation "x <- m ; k" := (bind m (λ x, k))
  (at level 20, m at level 100, k at level 200, only parsing).

Notation "m >> k" := (bind m (λ _, k))
  (at level 100, k at level 200, right associativity, only parsing).

(** An optional result; [None] is the exception. *)
Definition lift {A} (o : option A) : M A :=
  λ h, match o with Some a => Some (a, h) | None => None end.

Definition deref (r : loc) : M _EmojiCounter.t := λ h, lift (h !! r) h.

Definition assign (r : loc) (c : _EmojiCounter.t) : M unit :=
  λ h, Some (tt, <[r := c]> h).

(** [for x in l: body(x)]; a [continue] is a body that returns early. *)
Fixpoint for_each {A} (l : list A) (body : A → M unit) : M unit :=
  match l with
  | [] => ret tt
  | x :: l' => body x >> for_each l' body
  end.

(** [[f(x) for x in l]] *)
Fixpoint map_m {A B} (f : A → M B) (l : list A) : M (list B) :=
  match l with
  | [] => ret []
  | x :: l' => y <- f x; ys <- map_m f l'; ret (y :: ys)
  end.

(** ** Methods and properties of [_EmojiCounter], through a reference *)

Module Counter.
Import _EmojiCounter.

(** [_EmojiCounter(emoji)]: a new object. *)
Definition new (emoji : Emoji.t) : M loc :=
  λ h, let r := fresh (dom h) in Some (r, <[r := __init__ emoji]> h).

(** [self._counts[count_type] += 1] *)
Definition increment (self : loc) (count_type : _EmojiCountType.t) : M unit :=
  c <- deref self;
  n <- lift (_counts c !! count_type);
  assign self (with_counts c (<[count_type := n + 1]> (_counts c))).

Definition emoji (self : loc) : M Emoji.t :=
  c <- deref self; ret (_emoji c).

Definition rank (self : loc) : M Z :=
  c <- deref self; ret (_rank c).

Definition set_rank (self : loc) (value : Z) : M unit :=
  c <- deref self; assign self (with_rank c value).

Definition content_count (self : loc) : M Z :=
  c <- deref self; lift (_counts c !! _EmojiCountType.MESSAGE_CONTENT).

Definition reaction_count (self : loc) : M Z :=
  c <- deref self; lift (_counts c !! _EmojiCountType.MESSAGE_REACTION).

Definition total_count (self : loc) : M Z :=
  c <- deref self; ret (sum_values (_counts c)).
End Counter.

(** ** The cog *)

Module EmojiRanking.

(** The fields of the cog that the engine reads. *)
Record t := {
  _order : _SortOrder.t;
  _rank : Z;
  _contains_bot : bool;
  _user_ids : list Z
}.

(** The body of [for reaction in message.reactions]. *)
Definition count_reaction (self : t) (user_ids : gset Z) (counter : loc)
    (reaction : Reaction.t) : M unit :=
  match Reaction.emoji reaction with
  | Reaction.IsEmoji reaction_emoji =>
      counter_emoji <- Counter.emoji counter;
      if decide (Emoji.id reaction_emoji ≠ Emoji.id counter_emoji) then ret tt
      else
        let users := Reaction.users reaction in
        let users :=
          if decide (user_ids ≠ ∅)
          then filter (λ user, User.id user ∈ user_ids) users
          else users in
        if decide (users = []) then ret tt
        else if negb (_contains_bot self) && forallb User.bot users then ret tt
        else Counter.increment counter _EmojiCountType.MESSAGE_REACTION
  | _ => ret tt
  end.

(** The body of [for counter in counters]. *)
Definition count_counter (self : t) (user_ids : gset Z) (message : Message.t)
    (author_matches : bool) (counter : loc) : M unit :=
  in_content <-
    (if author_matches
     then counter_emoji <- Counter.emoji counter;
          ret (str_contains (Emoji.name counter_emoji) (Message.content message))
     else ret false);
  (if in_content
   then if _contains_bot self || negb (User.bot (Message.author message))
        then Counter.increment counter _EmojiCountType.MESSAGE_CONTENT
        else ret tt
   else ret tt) >>
  for_each (Message.reactions message) (count_reaction self user_ids counter).

(** The body of [for message in messages]. *)
Definition count_message (self : t) (user_ids : gset Z) (counters : list loc)
    (message : Message.t) : M unit :=
  let author_matches :=
    bool_decide (user_ids = ∅) ||
    bool_decide (User.id (Message.author message) ∈ user_ids) in
  for_each counters (count_counter self user_ids message author_matches).

Definition count_emojis (self : t) (counters : list loc)
    (messages : list Message.t) : M (list loc) :=
  let user_ids : gset Z := list_to_set (_user_ids self) in
  for_each messages (count_message self user_ids counters) >>
  ret counters.

(** The body of [for index, counter in enumerate(sorted_counters)]. *)
Definition assign_rank (sorted_counters : list loc) (index : nat)
    (counter : loc) : M unit :=
  let rank := Z.of_nat index + 1 in
  rank <-
    (if decide (0 < index)%nat
     then prev <- lift (sorted_counters !! (index - 1)%nat);
          prev_total <- Counter.total_count prev;
          counter_total <- Counter.total_count counter;
          if decide (prev_total = counter_total)
          then Counter.rank prev
          else ret rank
     else ret rank);
  Counter.set_rank counter rank.

Definition sort_ranking (self : t) (counters : list loc) (slice_num : Z)
    : M (list loc) :=
  let reverse := _SortOrder.reverse (_order self) in
  keyed <- map_m (λ c, k <- Counter.total_count c; ret (k, c)) counters;
  let sorted_counters := slice_to (snd <$> sorted fst reverse keyed) slice_num in
  for_each (enumerate sorted_counters)
    (λ ic, assign_rank sorted_counters (fst ic) (snd ic)) >>
  ret sorted_counters.

(** ** The parts of [_execute] around the engine *)

(** [counters = [_EmojiCounter(emoji) for emoji in ctx.guild.emojis]] *)
Definition new_counters (emojis : list Emoji.t) : M (list loc) :=
  map_m Counter.new emojis.

(** One call of [count_emojis] per channel whose history could be read. *)
Fixpoint count_channels (self : t) (counters : list loc)
    (batches : list (list Message.t)) : M (list loc) :=
  match batches with
  | [] => ret counters
  | messages :: batches' =>
      counters <- count_emojis self counters messages;
      count_channels self counters batches'
  end.

(** [rank = max(1, min(self._rank, len(ctx.guild.emojis)))] *)
Definition clamp_rank (self : t) (emojis : list Emoji.t) : Z :=
  Z.max 1 (Z.min (_rank self) (Z.of_nat (length emojis))).

(** What [_execute] reads of each counter [sort_ranking] returned: the
    emoji, the rank and the three counts that go into the embed. *)
Definition field (counter : loc) : M (string * Z * Z * Z * Z) :=
  rank <- Counter.rank counter;
  emoji <- Counter.emoji counter;
  total_count <- Counter.total_count counter;
  content_count <- Counter.content_count counter;
  reaction_count <- Counter.reaction_count counter;
  ret (Emoji.name emoji, rank, total_count, content_count, reaction_count).

Definition fields (self : t) (counters : list loc) (rank : Z)
    : M (list (string * Z * Z * Z * Z)) :=
  sorted_counters <- sort_ranking self counters rank;
  map_m field sorted_counters.

(** [_execute], from the emojis of the guild and the message histories of
    the channels that could be read to the fields of the embed. *)
Definition _execute (self : t) (emojis : list Emoji.t)
    (histories : list (list Message.t)) : M (list (string * Z * Z * Z * Z)) :=
  counters <- new_counters emojis;
  counters <- count_channels self counters histories;
  let rank := clamp_rank self emojis in
  fields self counters rank.

(** The body of [for arg in raw_args]. *)
Definition parse_legacy_arg (parsed : gmap string string) (arg : string)
    : option (gmap string string) :=
  if negb (str_contains "=" arg) then Some parsed
  else
    match str_partition "=" arg with
    | Some (key, _, value) =>
        if decide (key ≠ EmptyString) then Some (<[key := value]> parsed)
        else Some parsed
    | None => None
    end.

Fixpoint parse_legacy_loop (raw_args : list string)
    (parsed : gmap string string) : option (gmap string string) :=
  match raw_args with
  | [] => Some parsed
  | arg :: raw_args' =>
      match parse_legacy_arg parsed arg with
      | Some parsed' => parse_legacy_loop raw_args' parsed'
      | None => None
      end
  end.

Definition _parse_legacy_args (raw_args : list string)
    : option (gmap string string) :=
  parse_legacy_loop raw_args ∅.

(** The channels [_execute] scans: those of [channel_ids] when there are
    any, all channels of the guild otherwise, and of these the ones that
    exist and are text channels. *)
Definition select_channels (channel_ids : list Z) (guild : Guild.t)
    : list Channel.t :=
  let channels :=
    if decide (0 < length channel_ids)%nat
    then Guild.get_channel guild <$> channel_ids
    else Some <$> Guild.channels guild in
  omap (λ channel,
          match channel with
          | Some c => if Channel.is_text c then Some c else None
          | None => None
          end) channels.

(** [for channel in channels]: a history that raises [Forbidden] is logged
    and the loop goes on; the others go through [count_emojis]. *)
Fixpoint scan_channels (self : t) (counters : list loc)
    (channels : list Channel.t) : M (list loc) :=
  match channels with
  | [] => ret counters
  | channel :: channels' =>
      match Channel.history channel with
      | Channel.Forbidden => scan_channels self counters channels'
      | Channel.Messages messages =>
          counters <- count_emojis self counters messages;
          scan_channels self counters channels'
      end
  end.

(** [_execute] on a guild, up to the fields of the embed; [channel_ids] is
    [self._channel_ids]. *)
Definition execute_guild (self : t) (channel_ids : list Z) (guild : Guild.t)
    : M (list (string * Z * Z * Z * Z)) :=
  counters <- new_counters (Guild.emojis guild);
  let channels := select_channels channel_ids guild in
  counters <- scan_channels self counters channels;
  let rank := clamp_rank self (Guild.emojis guild) in
  fields self counters rank.

End EmojiRanking.

(** ** [bot.py] *)

Module Bot.
(** What the script ends in: [bot.run(token)] or the printed error. *)
Inductive outcome :=
| Run (token : string)
| NoToken.

(** The truth value of [os.environ.get(name)]: set and not empty. *)
Definition truthy (value : option string) : bool :=
  match value with
  | Some v => bool_decide (v ≠ EmptyString)
  | None => false
  end.

Definition main (environ : gmap string string) : outcome :=
  let token := environ !! "DISCORD_TOKEN"%string in
  let token :=
    if negb (truthy token) then environ !! "DISCORD_BOT_TOKEN"%string
    else token in
  match token with
  | Some t => if truthy token then Run t else NoToken
  | None => NoToken
  end.
End Bot.

(** ** Observations and invariants used to state the properties *)

(** What a computation returns when run in store [h]. *)
Definition observe {A} (m : M A) (h : heap) : option A := fst <$> m h.

(** Every reference of the list points to an object of the store. *)
Definition allocated (h : heap) (refs : list loc) : Prop :=
  ∀ r, r ∈ refs → is_Some (h !! r).

(** The sort key of a reference: its [total_count] in store [h]. *)
Definition key_in (h : heap) (r : loc) : Z :=
  default 0 (observe (Counter.total_count r) h).

(** The rank the loop of [sort_ranking] computes at position [i] of the list
    [s], from the keys [K] alone. *)
Fixpoint expected_rank (K : loc → Z) (s : list loc) (i : nat) : Z :=
  match i with
  | O => 1
  | S j =>
      match s !! j, s !! i with
      | Some p, Some r =>
          if decide (K p = K r) then expected_rank K s j else Z.of_nat i + 1
      | _, _ => Z.of_nat i + 1
      end
  end.

(** Entries with equal keys are contiguous in [s]. *)
Definition contiguous_keys (K : loc → Z) (s : list loc) : Prop :=
  ∀ i k j x y z, (i ≤ k ≤ j)%nat →
    s !! i = Some x → s !! k = Some z → s !! j = Some y →
    K x = K y → K z = K x.

(** The state of the store after [n] rounds of the ranking loop over [s],
    started in store [h0]. *)
Definition rank_inv (h0 : heap) (s : list loc) (n : nat) (h : heap) : Prop :=
  (∀ r, flip _EmojiCounter.with_rank 0 <$> h !! r
        = flip _EmojiCounter.with_rank 0 <$> h0 !! r) ∧
  (∀ r, r ∉ take n s → h !! r = h0 !! r) ∧
  (∀ i r, (i < n)%nat → s !! i = Some r →
     _EmojiCounter._rank <$> h !! r = Some (expected_rank (key_in h0) s i)).

(** ** The filters of the counting pass, in the words of the specification *)

(** The set of allowed authors; empty means no restriction. *)
Definition allowed (self : EmojiRanking.t) : gset Z :=
  list_to_set (EmojiRanking._user_ids self).

(** The users of a reaction entry, narrowed to the allowed authors when there
    are any. *)
Definition narrowed (self : EmojiRanking.t) (reaction : Reaction.t)
    : list User.t :=
  if decide (allowed self = ∅) then Reaction.users reaction
  else filter (λ user, User.id user ∈ allowed self) (Reaction.users reaction).

(** The reaction entry refers to the symbol [e]. *)
Definition reaction_matches (e : Emoji.t) (reaction : Reaction.t) : Prop :=
  ∃ re, Reaction.emoji reaction = Reaction.IsEmoji re ∧ Emoji.id re = Emoji.id e.

(** The narrowed set is not empty, and it is not the case that bot activity
    is excluded and every user of the narrowed set is a bot. *)
Definition reaction_qualifies (self : EmojiRanking.t) (reaction : Reaction.t)
    : Prop :=
  narrowed self reaction ≠ [] ∧
  ¬ (EmojiRanking._contains_bot self = false ∧
     Forall (λ user, User.bot user = true) (narrowed self reaction)).

(** The name occurs in the text, the author passes the author filter, and
    the author passes the bot guard. *)
Definition text_qualifies (self : EmojiRanking.t) (e : Emoji.t)
    (message : Message.t) : Prop :=
  str_contains (Emoji.name e) (Message.content message) = true ∧
  (allowed self ≠ ∅ → User.id (Message.author message) ∈ allowed self) ∧
  ¬ (EmojiRanking._contains_bot self = false ∧
     User.bot (Message.author message) = true).

#[global] Instance reaction_matches_dec e reaction :
  Decision (reaction_matches e reaction).
Proof.
  unfold reaction_matches.
  destruct (Reaction.emoji reaction) as [re|i n|u].
  - destruct (decide (Emoji.id re = Emoji.id e)) as [Heq|Hne].
    + left. by exists re.
    + right. intros (re' & Hre & Hid). by simplify_eq.
  - right. intros (re' & Hre & Hid). discriminate.
  - right. intros (re' & Hre & Hid). discriminate.
Defined.

#[global] Instance reaction_qualifies_dec self reaction :
  Decision (reaction_qualifies self reaction).
Proof. unfold reaction_qualifies. apply _. Defined.

#[global] Instance text_qualifies_dec self e message :
  Decision (text_qualifies self e message).
Proof. unfold text_qualifies. apply _. Defined.

(** ** The increments a pass performs *)

(** One increment of one tally of one counter. *)
Definition bump (op : nat * _EmojiCountType.t) (h : gmap nat _EmojiCounter.t)
    : gmap nat _EmojiCounter.t :=
  alter (λ c, _EmojiCounter.with_counts c
                (alter (λ n, n + 1) (snd op) (_EmojiCounter._counts c)))
    (fst op) h.

Definition apply_ops (ops : list (nat * _EmojiCountType.t))
    (h : gmap nat _EmojiCounter.t) : gmap nat _EmojiCounter.t :=
  foldl (λ h op, bump op h) h ops.

(** The increments one message causes on one counter: one of the content
    tally when the text qualifies, and one of the reaction tally for each
    reaction entry that matches and qualifies. *)
Definition counter_ops (self : EmojiRanking.t) (h : gmap nat _EmojiCounter.t)
    (message : Message.t) (counter : nat) : list (nat * _EmojiCountType.t) :=
  match h !! counter with
  | None => []
  | Some c =>
      (if decide (text_qualifies self (_EmojiCounter._emoji c) message)
       then [(counter, _EmojiCountType.MESSAGE_CONTENT)] else []) ++
      ((λ _, (counter, _EmojiCountType.MESSAGE_REACTION)) <$>
         filter (λ reaction,
                   reaction_matches (_EmojiCounter._emoji c) reaction ∧
                   reaction_qualifies self reaction)
           (Message.reactions message))
  end.

Definition message_ops (self : EmojiRanking.t) (h : gmap nat _EmojiCounter.t)
    (counters : list nat) (message : Message.t)
    : list (nat * _EmojiCountType.t) :=
  counters ≫= counter_ops self h message.

Definition pass_ops (self : EmojiRanking.t) (h : gmap nat _EmojiCounter.t)
    (counters : list nat) (messages : list Message.t)
    : list (nat * _EmojiCountType.t) :=
  messages ≫= message_ops self h counters.

(** Every reference of the list points to a counter that has both tallies. *)
Definition counting (h : gmap nat _EmojiCounter.t) (refs : list nat) : Prop :=
  ∀ r, r ∈ refs →
    ∃ c, h !! r = Some c ∧ ∀ ty, is_Some (_EmojiCounter._counts c !! ty).

(** Reference [r] points to a counter of emoji [e] that has both tallies. *)
Definition tracks (h : gmap nat _EmojiCounter.t) (r : nat) (e : Emoji.t)
    : Prop :=
  ∃ c, h !! r = Some c ∧ _EmojiCounter._emoji c = e ∧
       ∀ ty, is_Some (_EmojiCounter._counts c !! ty).

(** The tally of kind [ty] of the counter at [r]; [None] when there is none. *)
Definition tally (ty : _EmojiCountType.t) (h : gmap nat _EmojiCounter.t)
    (r : nat) : option Z :=
  h !! r ≫= λ c, _EmojiCounter._counts c !! ty.

(** ** What a report shows *)

(** The line of the report for a counter value: name, rank, total, content
    count and reaction count, as [EmojiRanking.field] reads them. *)
Definition field_of (c : _EmojiCounter.t) : option (string * Z * Z * Z * Z) :=
  content ← _EmojiCounter._counts c !! _EmojiCountType.MESSAGE_CONTENT;
  reaction ← _EmojiCounter._counts c !! _EmojiCountType.MESSAGE_REACTION;
  Some (Emoji.name (_EmojiCounter._emoji c), _EmojiCounter._rank c,
        _EmojiCounter.sum_values (_EmojiCounter._counts c), content, reaction).

(** The histories of the channels that could be read. *)
Definition readable (channels : list Channel.t) : list (list Message.t) :=
  omap (λ channel,
          match Channel.history channel with
          | Channel.Messages messages => Some messages
          | Channel.Forbidden => None
          end) channels.

(** The messages a channel adds to the run: those of its history when it is
    a text channel that can be read. *)
Definition contribution (channel : Channel.t) : option (list Message.t) :=
  if Channel.is_text channel
  then match Channel.history channel with
       | Channel.Messages messages => Some messages
       | Channel.Forbidden => None
       end
  else None.

(** The parts of a line of the report. *)
Definition line_name (f : string * Z * Z * Z * Z) : string := f.1.1.1.1.
Definition line_rank (f : string * Z * Z * Z * Z) : Z := f.1.1.1.2.
Definition line_total (f : string * Z * Z * Z * Z) : Z := f.1.1.2.
Definition line_content (f : string * Z * Z * Z * Z) : Z := f.1.2.
Definition line_reaction (f : string * Z * Z * Z * Z) : Z := f.2.


(** ** Stores used in the examples *)

Definition counter_of (id : Z) (name : string) (content reaction : Z)
    : _EmojiCounter.t :=
  {| _EmojiCounter._emoji := {| Emoji.id := id; Emoji.name := name |};
     _EmojiCounter._rank := 0;
     _EmojiCounter._counts :=
       <[_EmojiCountType.MESSAGE_CONTENT := content]>
         (<[_EmojiCountType.MESSAGE_REACTION := reaction]> ∅) |}.

(** Four counters A, B, C, D at references 0 to 3, with totals 5, 5, 3, 1. *)
Definition store_5531 : gmap nat _EmojiCounter.t :=
  list_to_map [(0%nat, counter_of 100 "A" 3 2); (1%nat, counter_of 101 "B" 5 0);
               (2%nat, counter_of 102 "C" 0 3); (3%nat, counter_of 103 "D" 1 0)].

(** The same four counters with totals 5, 5, 5, 1. *)
Definition store_5551 : gmap nat _EmojiCounter.t :=
  list_to_map [(0%nat, counter_of 100 "A" 3 2); (1%nat, counter_of 101 "B" 5 0);
               (2%nat, counter_of 102 "C" 1 4); (3%nat, counter_of 103 "D" 1 0)].

Definition human (id : Z) : User.t := {| User.id := id; User.bot := false |}.

Definition robot (id : Z) : User.t := {| User.id := id; User.bot := true |}.

Definition emoji_A : Emoji.t := {| Emoji.id := 100; Emoji.name := "A" |}.

Definition emoji_B : Emoji.t := {| Emoji.id := 101; Emoji.name := "B" |}.

(** A message without reactions. *)
Definition text_message (author : User.t) (content : string) : Message.t :=
  {| Message.author := author; Message.content := content;
     Message.reactions := [] |}.

(** A message without text that carries one reaction entry. *)
Definition reacted_message (author : User.t) (emoji : Reaction.emoji_t)
    (users : list User.t) : Message.t :=
  {| Message.author := author; Message.content := "";
     Message.reactions := [{| Reaction.emoji := emoji; Reaction.users := users |}] |}.

Definition cog (order : _SortOrder.t) (contains_bot : bool) (user_ids : list Z)
    : EmojiRanking.t :=
  {| EmojiRanking._order := order;
     EmojiRanking._rank := 10;
     EmojiRanking._contains_bot := contains_bot;
     EmojiRanking._user_ids := user_ids |}.

(** A guild with emojis A and B: a text channel with two messages, a text
    channel that cannot be read, and a voice channel. *)
Definition guild_AB : Guild.t :=
  {| Guild.emojis := [emoji_A; emoji_B];
     Guild.channels :=
       [{| Channel.id := 1; Channel.is_text := true;
           Channel.history :=
             Channel.Messages [text_message (human 1) "A";
                               text_message (human 2) "A B"] |};
        {| Channel.id := 2; Channel.is_text := true;
           Channel.history := Channel.Forbidden |};
        {| Channel.id := 3; Channel.is_text := false;
           Channel.history := Channel.Messages [text_message (human 1) "B"] |}]
  |}.

(** * Properties *)

(** ** The built-ins *)

Section sorted_facts.
Context {A : Type} (key : A → Z).

Lemma insert_by_perm x l : insert_by key x l ≡ₚ x :: l.
Proof.
  induction l as [|y l IH]; simpl; [done|].
  case_decide; [done|]. rewrite IH. apply Permutation_swap.
Qed.

Lemma stable_sort_perm l : stable_sort key l ≡ₚ l.
Proof.
  induction l as [|x l IH]; simpl; [done|].
  by rewrite insert_by_perm, IH.
Qed.

Lemma insert_by_sorted x l :
  StronglySorted (λ a b, key a ≤ key b) l →
  StronglySorted (λ a b, key a ≤ key b) (insert_by key x l).
Proof.
  induction 1 as [|y l Hl IH Hy]; simpl.
  - repeat constructor.
  - case_decide as Hxy.
    + constructor; [by constructor|].
      constructor; [done|].
      eapply Forall_impl; [exact Hy|]. simpl. intros; lia.
    + constructor; [done|].
      rewrite insert_by_perm. constructor; [lia|done].
Qed.

Lemma stable_sort_sorted l :
  StronglySorted (λ a b, key a ≤ key b) (stable_sort key l).
Proof.
  induction l; simpl; [constructor|by apply insert_by_sorted].
Qed.

Lemma insert_by_filter k x l :
  filter (λ a, key a = k) (insert_by key x l) = filter (λ a, key a = k) (x :: l).
Proof.
  induction l as [|y l IH]; simpl; [done|].
  case_decide as Hxy; [done|].
  rewrite (filter_cons _ y), IH, !filter_cons.
  repeat case_decide; try done; lia.
Qed.

Lemma stable_sort_filter k l :
  filter (λ a, key a = k) (stable_sort key l) = filter (λ a, key a = k) l.
Proof.
  induction l as [|x l IH]; simpl; [done|].
  by rewrite insert_by_filter, !filter_cons, IH.
Qed.

Lemma StronglySorted_reverse (R : relation A) l :
  StronglySorted R l → StronglySorted (flip R) (reverse l).
Proof.
  induction 1 as [|x l Hl IH Hx]; [constructor|].
  rewrite reverse_cons. apply StronglySorted_app_2.
  - intros a b Ha Hb. apply list_elem_of_singleton in Hb as ->.
    rewrite elem_of_reverse in Ha. rewrite Forall_forall in Hx.
    unfold flip. by apply Hx.
  - exact IH.
  - repeat constructor.
Qed.

Lemma StronglySorted_lookup (R : relation A) l i j x y :
  StronglySorted R l → (i < j)%nat → l !! i = Some x → l !! j = Some y → R x y.
Proof.
  intros Hl. revert i j. induction Hl as [|a l Hl IH Ha]; intros i j Hij Hi Hj.
  - by rewrite lookup_nil in Hi.
  - destruct j as [|j]; [lia|]. destruct i as [|i]; simpl in *.
    + simplify_eq. rewrite Forall_forall in Ha. apply Ha.
      by eapply list_elem_of_lookup_2.
    + apply (IH i j); [lia|done..].
Qed.

Lemma sorted_perm rv l : sorted key rv l ≡ₚ l.
Proof.
  destruct rv; simpl; [|apply stable_sort_perm].
  by rewrite reverse_Permutation, stable_sort_perm, reverse_Permutation.
Qed.

Lemma sorted_ascending l :
  StronglySorted (λ a b, key a ≤ key b) (sorted key false l).
Proof. apply stable_sort_sorted. Qed.

Lemma sorted_descending l :
  StronglySorted (λ a b, key b ≤ key a) (sorted key true l).
Proof. apply (StronglySorted_reverse _ _ (stable_sort_sorted _)). Qed.

Lemma sorted_stable rv k l :
  filter (λ a, key a = k) (sorted key rv l) = filter (λ a, key a = k) l.
Proof.
  destruct rv; simpl; [|apply stable_sort_filter].
  by rewrite filter_reverse, stable_sort_filter, filter_reverse, reverse_involutive.
Qed.
End sorted_facts.

(** ** Running the methods of a counter *)

Lemma bind_run {A B} (m : M A) (f : A → M B) h a h' :
  m h = Some (a, h') → bind m f h = f a h'.
Proof. unfold bind. by intros ->. Qed.

Lemma total_count_run h r c :
  h !! r = Some c →
  Counter.total_count r h
  = Some (_EmojiCounter.sum_values (_EmojiCounter._counts c), h).
Proof. intros Hr. unfold Counter.total_count, bind, deref, lift. by rewrite Hr. Qed.

Lemma rank_run h r c :
  h !! r = Some c → Counter.rank r h = Some (_EmojiCounter._rank c, h).
Proof. intros Hr. unfold Counter.rank, bind, deref, lift. by rewrite Hr. Qed.

Lemma emoji_run h r c :
  h !! r = Some c → Counter.emoji r h = Some (_EmojiCounter._emoji c, h).
Proof. intros Hr. unfold Counter.emoji, bind, deref, lift. by rewrite Hr. Qed.

Lemma set_rank_run h r c v :
  h !! r = Some c →
  Counter.set_rank r v h = Some (tt, <[r := _EmojiCounter.with_rank c v]> h).
Proof. intros Hr. unfold Counter.set_rank, bind, deref, lift. by rewrite Hr. Qed.

Lemma increment_run h r c ty n :
  h !! r = Some c → _EmojiCounter._counts c !! ty = Some n →
  Counter.increment r ty h
  = Some (tt, <[r := _EmojiCounter.with_counts c
                       (<[ty := n + 1]> (_EmojiCounter._counts c))]> h).
Proof.
  intros Hr Hn. unfold Counter.increment, bind, deref, lift. by rewrite Hr, Hn.
Qed.

Lemma key_in_lookup h r c :
  h !! r = Some c →
  key_in h r = _EmojiCounter.sum_values (_EmojiCounter._counts c).
Proof.
  intros Hr. unfold key_in, observe. by rewrite (total_count_run _ _ _ Hr).
Qed.

(** ** Running [sort_ranking] *)

Lemma keyed_run h counters :
  allocated h counters →
  map_m (λ c, k <- Counter.total_count c; ret (k, c)) counters h
  = Some ((λ r, (key_in h r, r)) <$> counters, h).
Proof.
  induction counters as [|r l IH]; intros Hall; simpl; [done|].
  destruct (Hall r) as [c Hr]; [by left|].
  rewrite (bind_run _ _ h (key_in h r, r) h).
  - rewrite (bind_run _ _ h _ h (IH (λ x Hx, Hall x (list_elem_of_further _ _ _ Hx)))).
    done.
  - rewrite (bind_run _ _ h _ h (total_count_run _ _ _ Hr)).
    by rewrite (key_in_lookup _ _ _ Hr).
Qed.

Lemma insert_by_decorated (K : loc → Z) x l :
  insert_by fst (K x, x) ((λ r, (K r, r)) <$> l)
  = (λ r, (K r, r)) <$> insert_by K x l.
Proof.
  induction l as [|y l IH]; [done|].
  rewrite fmap_cons. cbn [insert_by fst].
  destruct (decide (K x ≤ K y)); [done|].
  rewrite fmap_cons. f_equal. apply IH.
Qed.

Lemma stable_sort_decorated (K : loc → Z) l :
  stable_sort fst ((λ r, (K r, r)) <$> l) = (λ r, (K r, r)) <$> stable_sort K l.
Proof.
  induction l as [|x l IH]; [done|].
  rewrite fmap_cons. cbn [stable_sort]. rewrite IH. apply insert_by_decorated.
Qed.

(** Sorting the decorated list and dropping the keys sorts by the key. *)
Lemma sorted_decorated (K : loc → Z) rv l :
  snd <$> sorted fst rv ((λ r, (K r, r)) <$> l) = sorted K rv l.
Proof.
  assert (Hsnd : ∀ l' : list loc, snd <$> ((λ r, (K r, r)) <$> l') = l').
  { intros l'. rewrite <- list_fmap_compose. apply list_fmap_id. }
  destruct rv; simpl.
  - by rewrite <- fmap_reverse, stable_sort_decorated, <- fmap_reverse, Hsnd.
  - by rewrite stable_sort_decorated, Hsnd.
Qed.

Lemma same_fields_lookup (h h0 : gmap nat _EmojiCounter.t) r c0 :
  flip _EmojiCounter.with_rank 0 <$> h !! r
  = flip _EmojiCounter.with_rank 0 <$> h0 !! r →
  h0 !! r = Some c0 →
  ∃ c, h !! r = Some c
       ∧ _EmojiCounter._emoji c = _EmojiCounter._emoji c0
       ∧ _EmojiCounter._counts c = _EmojiCounter._counts c0.
Proof.
  intros Hsame Hr. rewrite Hr in Hsame.
  destruct (h !! r) as [c|]; [|done]. exists c.
  simpl in Hsame. injection Hsame as He Hc. done.
Qed.

Section rank_loop.
Context (h0 : gmap nat _EmojiCounter.t) (s : list nat).
Hypothesis Halloc : allocated h0 s.
Hypothesis Hcontig : contiguous_keys (key_in h0) s.

Lemma expected_rank_alias n i x y :
  (i ≤ n)%nat → s !! i = Some x → s !! n = Some y →
  key_in h0 x = key_in h0 y →
  expected_rank (key_in h0) s n = expected_rank (key_in h0) s i.
Proof.
  revert y. induction n as [|m IH]; intros y Hin Hi Hn Hxy.
  - by replace i with 0%nat by lia.
  - destruct (decide (i = S m)) as [->|Hne]; [done|].
    destruct (lookup_lt_is_Some_2 s m) as [z Hz].
    { apply lookup_lt_Some in Hn. lia. }
    assert (key_in h0 z = key_in h0 x) as Hzx.
    { apply (Hcontig i m (S m) x y z); [lia|done..]. }
    cbn [expected_rank]. rewrite Hz, Hn, decide_True by congruence.
    apply (IH z); [lia|done|done|congruence].
Qed.

Lemma rank_inv_key n h r :
  rank_inv h0 s n h → r ∈ s →
  ∃ c, h !! r = Some c ∧
       _EmojiCounter.sum_values (_EmojiCounter._counts c) = key_in h0 r.
Proof.
  intros (Hsame & _ & _) Hr. destruct (Halloc r Hr) as [c0 Hc0].
  destruct (same_fields_lookup _ _ _ _ (Hsame r) Hc0) as (c & Hc & _ & Hcounts).
  exists c. split; [done|]. by rewrite (key_in_lookup _ _ _ Hc0), Hcounts.
Qed.

Lemma rank_inv_step n r h :
  rank_inv h0 s n h → s !! n = Some r →
  ∃ h', EmojiRanking.assign_rank s n r h = Some (tt, h')
        ∧ rank_inv h0 s (S n) h'.
Proof.
  intros Hinv Hn.
  assert (r ∈ s) as Hrs by (by eapply list_elem_of_lookup_2).
  destruct (rank_inv_key n h r Hinv Hrs) as (c & Hc & Hkc).
  exists (<[r := _EmojiCounter.with_rank c (expected_rank (key_in h0) s n)]> h).
  split.
  - unfold EmojiRanking.assign_rank.
    erewrite bind_run; [by apply set_rank_run|].
    destruct n as [|m]; [done|].
    rewrite decide_True by lia.
    replace (S m - 1)%nat with m by lia.
    destruct (lookup_lt_is_Some_2 s m) as [p Hp].
    { apply lookup_lt_Some in Hn. lia. }
    assert (p ∈ s) as Hps by (by eapply list_elem_of_lookup_2).
    destruct (rank_inv_key (S m) h p Hinv Hps) as (cp & Hcp & Hkp).
    rewrite Hp.
    erewrite bind_run; [|reflexivity].
    erewrite bind_run; [|by apply total_count_run].
    erewrite bind_run; [|by apply total_count_run].
    rewrite Hkp, Hkc. cbn [expected_rank]. rewrite Hp, Hn.
    destruct (decide (key_in h0 p = key_in h0 r)); [|done].
    rewrite (rank_run _ _ _ Hcp). do 2 f_equal.
    destruct Hinv as (_ & _ & Hrank).
    specialize (Hrank m p ltac:(lia) Hp). rewrite Hcp in Hrank.
    by injection Hrank.
  - destruct Hinv as (Hsame & Hframe & Hrank). split_and!.
    + intros r'. destruct (decide (r = r')) as [<-|Hne].
      * by rewrite lookup_insert_eq, <- Hsame, Hc.
      * by rewrite lookup_insert_ne.
    + intros r' Hr'. rewrite (take_S_r _ _ _ Hn) in Hr'.
      rewrite lookup_insert_ne by set_solver. apply Hframe. set_solver.
    + intros i r' Hi Hir'. destruct (decide (r = r')) as [<-|Hne].
      * rewrite lookup_insert_eq. simpl. f_equal.
        apply (expected_rank_alias n i r r); [lia|done..].
      * rewrite lookup_insert_ne by done. apply Hrank; [|done].
        destruct (decide (i = n)) as [->|]; [congruence|lia].
Qed.

Lemma rank_loop_run l2 : ∀ l1 h,
  s = l1 ++ l2 → rank_inv h0 s (length l1) h →
  ∃ h', for_each (enumerate_from (length l1) l2)
          (λ ic, EmojiRanking.assign_rank s (fst ic) (snd ic)) h = Some (tt, h')
        ∧ rank_inv h0 s (length s) h'.
Proof.
  induction l2 as [|r l2 IH]; intros l1 h Hs Hinv.
  - exists h. split; [done|].
    by replace (length s) with (length l1) by (by rewrite Hs, app_nil_r).
  - assert (s !! length l1 = Some r) as Hr.
    { by rewrite Hs, list_lookup_middle. }
    destruct (rank_inv_step _ _ _ Hinv Hr) as (h1 & Hrun & Hinv1).
    destruct (IH (l1 ++ [r]) h1) as (h' & Hrun' & Hinv').
    { by rewrite <- app_assoc. }
    { by rewrite length_app, Nat.add_1_r. }
    exists h'. split; [|done].
    cbn [for_each enumerate_from]. erewrite bind_run; [|exact Hrun].
    by rewrite length_app, Nat.add_1_r in Hrun'.
Qed.
End rank_loop.

Lemma contiguous_sorted (K : nat → Z) rv l : contiguous_keys K (sorted K rv l).
Proof.
  intros i k j x y z [Hik Hkj] Hi Hk Hj Hxy.
  assert (∀ (R : relation nat) a b u v,
    StronglySorted R (sorted K rv l) → (∀ w, R w w) → (a ≤ b)%nat →
    sorted K rv l !! a = Some u → sorted K rv l !! b = Some v → R u v) as Hle.
  { intros R a b u v HR Hrefl Hab Ha Hb.
    destruct (decide (a = b)) as [->|]; [by simplify_eq|].
    apply (StronglySorted_lookup R (sorted K rv l) a b); [done|lia|done..]. }
  destruct rv.
  - pose proof (Hle _ i k x z (sorted_descending K l) ltac:(simpl; lia) Hik Hi Hk).
    pose proof (Hle _ k j z y (sorted_descending K l) ltac:(simpl; lia) Hkj Hk Hj).
    simpl in *. lia.
  - pose proof (Hle _ i k x z (sorted_ascending K l) ltac:(simpl; lia) Hik Hi Hk).
    pose proof (Hle _ k j z y (sorted_ascending K l) ltac:(simpl; lia) Hkj Hk Hj).
    simpl in *. lia.
Qed.

Lemma contiguous_take (K : nat → Z) n l :
  contiguous_keys K l → contiguous_keys K (take n l).
Proof.
  intros Hl i k j x y z Hikj Hi Hk Hj.
  apply lookup_take_Some in Hi as [Hi _], Hk as [Hk _], Hj as [Hj _].
  by apply (Hl i k j).
Qed.

Lemma slice_to_take {A} (l : list A) stop : ∃ n, slice_to l stop = take n l.
Proof. unfold slice_to. case_decide; eauto. Qed.

Lemma slice_to_nonneg {A} (l : list A) stop :
  0 ≤ stop → slice_to l stop = take (Z.to_nat stop) l.
Proof. intros. unfold slice_to. by rewrite decide_False by lia. Qed.

Lemma elem_of_slice_to {A} (l : list A) stop x : x ∈ slice_to l stop → x ∈ l.
Proof.
  destruct (slice_to_take l stop) as [n ->]. intros Hx.
  apply elem_of_take in Hx as (i & Hi & _). by eapply list_elem_of_lookup_2.
Qed.

(** The list [sort_ranking] ranks and returns. *)
Lemma sort_ranking_run self counters slice_num h :
  allocated h counters →
  ∃ h', EmojiRanking.sort_ranking self counters slice_num h
        = Some (slice_to (sorted (key_in h)
                            (_SortOrder.reverse (EmojiRanking._order self))
                            counters) slice_num, h')
        ∧ rank_inv h
            (slice_to (sorted (key_in h)
                         (_SortOrder.reverse (EmojiRanking._order self))
                         counters) slice_num)
            (length (slice_to (sorted (key_in h)
                                 (_SortOrder.reverse (EmojiRanking._order self))
                                 counters) slice_num)) h'.
Proof.
  intros Hall. unfold EmojiRanking.sort_ranking.
  erewrite bind_run; [|by apply keyed_run].
  rewrite sorted_decorated.
  set (s := slice_to _ _).
  destruct (rank_loop_run h s) with (l1 := @nil nat) (l2 := s) (h := h)
    as (h' & Hrun & Hinv).
  - intros r Hr. apply Hall. apply elem_of_slice_to in Hr.
    by rewrite sorted_perm in Hr.
  - subst s. destruct (slice_to_take (sorted (key_in h)
      (_SortOrder.reverse (EmojiRanking._order self)) counters) slice_num)
      as [n ->].
    apply contiguous_take, contiguous_sorted.
  - done.
  - split_and!; [done|done|]. intros i r Hi. simpl in Hi. lia.
  - exists h'. split; [|done].
    unfold enumerate. by erewrite bind_run; [|exact Hrun].
Qed.

(** ** What the properties of a counter return *)

Lemma observe_rank h r :
  observe (Counter.rank r) h = _EmojiCounter._rank <$> h !! r.
Proof. unfold observe, Counter.rank, bind, deref, lift. by destruct (h !! r). Qed.

Lemma observe_emoji h r :
  observe (Counter.emoji r) h = _EmojiCounter._emoji <$> h !! r.
Proof. unfold observe, Counter.emoji, bind, deref, lift. by destruct (h !! r). Qed.

Lemma observe_total_count h r :
  observe (Counter.total_count r) h
  = (λ c, _EmojiCounter.sum_values (_EmojiCounter._counts c)) <$> h !! r.
Proof.
  unfold observe, Counter.total_count, bind, deref, lift. by destruct (h !! r).
Qed.

Lemma observe_content_count h r :
  observe (Counter.content_count r) h
  = h !! r ≫= λ c, _EmojiCounter._counts c !! _EmojiCountType.MESSAGE_CONTENT.
Proof.
  unfold observe, Counter.content_count, bind, deref, lift.
  destruct (h !! r) as [c|]; simpl; [|done].
  by destruct (_EmojiCounter._counts c !! _).
Qed.

Lemma observe_reaction_count h r :
  observe (Counter.reaction_count r) h
  = h !! r ≫= λ c, _EmojiCounter._counts c !! _EmojiCountType.MESSAGE_REACTION.
Proof.
  unfold observe, Counter.reaction_count, bind, deref, lift.
  destruct (h !! r) as [c|]; simpl; [|done].
  by destruct (_EmojiCounter._counts c !! _).
Qed.

(** ** The ranking engine *)

(** Proves a property of every reference of a literal list, one at a time. *)
Ltac each_ref tac :=
  let r := fresh "r" in
  let Hr := fresh "Hr" in
  intros r Hr;
  repeat (apply elem_of_cons in Hr as [->|Hr]; [tac|]);
  by apply elem_of_nil in Hr.

Ltac solve_allocated := each_ref ltac:(eexists; by vm_compute).

Ltac solve_counting :=
  each_ref ltac:(eexists; split; [by vm_compute|];
                 intros []; eexists; by vm_compute).

Lemma allocated_sorted h rv counters stop :
  allocated h counters →
  allocated h (slice_to (sorted (key_in h) rv counters) stop).
Proof.
  intros Hall r Hr. apply Hall. apply elem_of_slice_to in Hr.
  by rewrite sorted_perm in Hr.
Qed.

(** C1: the first entry of the list [sort_ranking] returns has rank 1, and
    every later entry has the rank of the entry before it when their
    [total_count]s are equal, and its position counted from 1 otherwise; on
    totals 5, 5, 3, 1 in descending order with a limit of 4 the ranks are
    A:1, B:1, C:3, D:4. *)
Theorem sort_ranking_rank_assignment :
  (∀ self counters slice_num h,
     allocated h counters →
     ∃ out h',
       EmojiRanking.sort_ranking self counters slice_num h = Some (out, h') ∧
       (∀ r, out !! 0%nat = Some r → observe (Counter.rank r) h' = Some 1) ∧
       (∀ i p r, out !! i = Some p → out !! S i = Some r →
          ∃ kp kr,
            observe (Counter.total_count p) h' = Some kp ∧
            observe (Counter.total_count r) h' = Some kr ∧
            observe (Counter.rank r) h'
            = if decide (kp = kr) then observe (Counter.rank p) h'
              else Some (Z.of_nat (S i) + 1))) ∧
  observe (EmojiRanking.fields (cog _SortOrder.DESCENDING false [])
             [0; 1; 2; 3]%nat 4) store_5531
  = Some [("A"%string, 1, 5, 3, 2); ("B"%string, 1, 5, 5, 0);
          ("C"%string, 3, 3, 0, 3); ("D"%string, 4, 1, 1, 0)].
Proof.
  split; [|by vm_compute].
  intros self counters slice_num h Hall.
  destruct (sort_ranking_run self counters slice_num h Hall) as (h' & Hrun & Hinv).
  set (s := slice_to _ _) in *.
  assert (allocated h s) as Hs by (by apply allocated_sorted).
  exists s, h'. split; [done|]. split.
  - intros r Hr. rewrite observe_rank.
    destruct Hinv as (_ & _ & Hrank).
    apply (Hrank 0%nat r); [|done]. apply lookup_lt_Some in Hr. lia.
  - intros i p r Hp Hr.
    destruct (rank_inv_key h s Hs _ h' p Hinv) as (cp & Hcp & Hkp).
    { by eapply list_elem_of_lookup_2. }
    destruct (rank_inv_key h s Hs _ h' r Hinv) as (cr & Hcr & Hkr).
    { by eapply list_elem_of_lookup_2. }
    exists (key_in h p), (key_in h r).
    rewrite !observe_total_count, !observe_rank, Hcp, Hcr. simpl.
    rewrite Hkp, Hkr. split; [done|]. split; [done|].
    destruct Hinv as (_ & _ & Hrank).
    pose proof (Hrank (S i) r ltac:(by apply lookup_lt_Some in Hr) Hr) as HrS.
    pose proof (Hrank i p ltac:(apply lookup_lt_Some in Hr; lia) Hp) as Hpi.
    rewrite Hcr in HrS. rewrite Hcp in Hpi. simpl in HrS, Hpi.
    rewrite HrS. cbn [expected_rank]. rewrite Hp, Hr.
    destruct (decide (key_in h p = key_in h r)); [|done]. by rewrite <- Hpi.
Qed.

(** The counters of the example are allocated, and the ranks of the returned
    list obey the rule there. *)
Lemma sort_ranking_rank_assignment_witness :
  allocated store_5531 [0; 1; 2; 3]%nat ∧
  ∃ out h',
    EmojiRanking.sort_ranking (cog _SortOrder.DESCENDING false [])
      [0; 1; 2; 3]%nat 4 store_5531 = Some (out, h') ∧
    (∀ r, out !! 0%nat = Some r → observe (Counter.rank r) h' = Some 1) ∧
    (∀ i p r, out !! i = Some p → out !! S i = Some r →
       ∃ kp kr,
         observe (Counter.total_count p) h' = Some kp ∧
         observe (Counter.total_count r) h' = Some kr ∧
         observe (Counter.rank r) h'
         = if decide (kp = kr) then observe (Counter.rank p) h'
           else Some (Z.of_nat (S i) + 1)).
Proof.
  assert (allocated store_5531 [0; 1; 2; 3]%nat) as Hall by solve_allocated.
  split; [exact Hall|].
  exact (proj1 sort_ranking_rank_assignment _ _ _ _ Hall).
Defined.

(** C3: for a limit that is not negative, [sort_ranking] returns the first
    [slice_num] entries of the sorted list and no more, also when the cut
    falls inside a run of equal totals; the ranks are those of the rule
    applied to the returned entries alone, and a counter that is not returned
    is left as it was.  On totals 5, 5, 5, 1 with a limit of 2 the result is
    A and B, both of rank 1, and C and D keep the rank they had. *)
Theorem sort_ranking_truncates_before_ranking :
  (∀ self counters slice_num h,
     allocated h counters → 0 ≤ slice_num →
     ∃ out h',
       EmojiRanking.sort_ranking self counters slice_num h = Some (out, h') ∧
       out = take (Z.to_nat slice_num)
               (sorted (key_in h) (_SortOrder.reverse (EmojiRanking._order self))
                  counters) ∧
       length out = Nat.min (Z.to_nat slice_num) (length counters) ∧
       (∀ i r, out !! i = Some r →
          observe (Counter.rank r) h' = Some (expected_rank (key_in h) out i)) ∧
       (∀ r, r ∉ out → h' !! r = h !! r)) ∧
  (∃ h',
     EmojiRanking.sort_ranking (cog _SortOrder.DESCENDING false [])
       [0; 1; 2; 3]%nat 2 store_5551 = Some ([0; 1]%nat, h') ∧
     observe (map_m EmojiRanking.field [0; 1]%nat) h'
     = Some [("A"%string, 1, 5, 3, 2); ("B"%string, 1, 5, 5, 0)] ∧
     h' !! 2%nat = store_5551 !! 2%nat ∧
     h' !! 3%nat = store_5551 !! 3%nat).
Proof.
  split.
  - intros self counters slice_num h Hall Hpos.
    destruct (sort_ranking_run self counters slice_num h Hall) as (h' & Hrun & Hinv).
    rewrite slice_to_nonneg in Hrun, Hinv by done.
    eexists _, h'. split; [exact Hrun|]. split; [done|]. split.
    { by rewrite length_take, (Permutation_length (sorted_perm _ _ _)). }
    destruct Hinv as (_ & Hframe & Hrank). split.
    + intros i r Hr. rewrite observe_rank. apply Hrank; [|done].
      by apply lookup_lt_Some in Hr.
    + intros r Hr. apply Hframe. by rewrite firstn_all.
  - eexists. split; [by vm_compute|]. by vm_compute.
Qed.

Lemma sort_ranking_truncates_before_ranking_witness :
  allocated store_5551 [0; 1; 2; 3]%nat ∧ 0 ≤ 2 ∧
  ∃ out h',
    EmojiRanking.sort_ranking (cog _SortOrder.DESCENDING false [])
      [0; 1; 2; 3]%nat 2 store_5551 = Some (out, h') ∧
    out = take (Z.to_nat 2)
            (sorted (key_in store_5551)
               (_SortOrder.reverse
                  (EmojiRanking._order (cog _SortOrder.DESCENDING false [])))
               [0; 1; 2; 3]%nat) ∧
    length out = Nat.min (Z.to_nat 2) (length [0; 1; 2; 3]%nat) ∧
    (∀ i r, out !! i = Some r →
       observe (Counter.rank r) h'
       = Some (expected_rank (key_in store_5551) out i)) ∧
    (∀ r, r ∉ out → h' !! r = store_5551 !! r).
Proof.
  assert (allocated store_5551 [0; 1; 2; 3]%nat) as Hall by solve_allocated.
  split; [exact Hall|]. split; [lia|].
  apply (proj1 sort_ranking_truncates_before_ranking);
    [exact Hall|lia].
Defined.

(** C4: the list [sort_ranking] cuts and ranks is the list of counters sorted
    by [total_count], from the largest total for [DESCENDING] and from the
    smallest for any other order, and counters with equal totals keep the
    order they had in the input, in both directions; with a limit that reaches
    the whole list this sorted list is the one returned.  [ASCENDING] on
    totals 5, 5, 3, 1 returns D, C, A, B with ranks 1, 2, 3, 3. *)
Theorem sort_ranking_sorts_stably :
  (∀ self counters slice_num h,
     allocated h counters →
     ∃ srt out h',
       EmojiRanking.sort_ranking self counters slice_num h = Some (out, h') ∧
       out = slice_to srt slice_num ∧
       (Z.of_nat (length counters) ≤ slice_num → out = srt) ∧
       srt ≡ₚ counters ∧
       (if decide (EmojiRanking._order self = _SortOrder.DESCENDING)
        then StronglySorted (λ a b, key_in h b ≤ key_in h a) srt
        else StronglySorted (λ a b, key_in h a ≤ key_in h b) srt) ∧
       (∀ k, filter (λ r, key_in h r = k) srt
             = filter (λ r, key_in h r = k) counters) ∧
       (∀ r, r ∈ counters →
          observe (Counter.total_count r) h' = Some (key_in h r))) ∧
  observe (EmojiRanking.fields (cog _SortOrder.ASCENDING false [])
             [0; 1; 2; 3]%nat 4) store_5531
  = Some [("D"%string, 1, 1, 1, 0); ("C"%string, 2, 3, 0, 3);
          ("A"%string, 3, 5, 3, 2); ("B"%string, 3, 5, 5, 0)].
Proof.
  split; [|by vm_compute].
  intros self counters slice_num h Hall.
  destruct (sort_ranking_run self counters slice_num h Hall) as (h' & Hrun & Hinv).
  eexists (sorted (key_in h) _ counters), _, h'.
  split; [exact Hrun|]. split; [done|]. split_and!.
  - intros Hlen. rewrite slice_to_nonneg by lia. apply take_ge.
    rewrite (Permutation_length (sorted_perm _ _ _)). lia.
  - apply sorted_perm.
  - unfold _SortOrder.reverse. case_decide.
    + apply sorted_descending.
    + apply sorted_ascending.
  - intros k. apply sorted_stable.
  - intros r Hr. destruct (Hall r Hr) as [c0 Hc0].
    destruct Hinv as (Hsame & _ & _).
    destruct (same_fields_lookup _ _ _ _ (Hsame r) Hc0) as (c & Hc & _ & Hcounts).
    by rewrite observe_total_count, Hc, (key_in_lookup _ _ _ Hc0), <- Hcounts.
Qed.

Lemma sort_ranking_sorts_stably_witness :
  allocated store_5531 [0; 1; 2; 3]%nat ∧
  ∃ srt out h',
    EmojiRanking.sort_ranking (cog _SortOrder.ASCENDING false [])
      [0; 1; 2; 3]%nat 4 store_5531 = Some (out, h') ∧
    out = slice_to srt 4 ∧
    (Z.of_nat (length [0; 1; 2; 3]%nat) ≤ 4 → out = srt) ∧
    srt ≡ₚ [0; 1; 2; 3]%nat ∧
    (if decide (EmojiRanking._order (cog _SortOrder.ASCENDING false [])
                = _SortOrder.DESCENDING)
     then StronglySorted (λ a b, key_in store_5531 b ≤ key_in store_5531 a) srt
     else StronglySorted (λ a b, key_in store_5531 a ≤ key_in store_5531 b) srt) ∧
    (∀ k, filter (λ r, key_in store_5531 r = k) srt
          = filter (λ r, key_in store_5531 r = k) [0; 1; 2; 3]%nat) ∧
    (∀ r, r ∈ [0; 1; 2; 3]%nat →
       observe (Counter.total_count r) h' = Some (key_in store_5531 r)).
Proof.
  assert (allocated store_5531 [0; 1; 2; 3]%nat) as Hall by solve_allocated.
  split; [exact Hall|].
  exact (proj1 sort_ranking_sorts_stably _ _ _ _ Hall).
Defined.

Lemma same_fields_observe (h h' : gmap nat _EmojiCounter.t) r :
  flip _EmojiCounter.with_rank 0 <$> h' !! r
  = flip _EmojiCounter.with_rank 0 <$> h !! r →
  observe (Counter.content_count r) h' = observe (Counter.content_count r) h ∧
  observe (Counter.reaction_count r) h' = observe (Counter.reaction_count r) h ∧
  observe (Counter.total_count r) h' = observe (Counter.total_count r) h ∧
  observe (Counter.emoji r) h' = observe (Counter.emoji r) h.
Proof.
  rewrite !observe_content_count, !observe_reaction_count,
    !observe_total_count, !observe_emoji.
  destruct (h' !! r) as [c'|], (h !! r) as [c|]; simpl; try done.
  intros [= He Hc]. by rewrite He, Hc.
Qed.

(** C10: [sort_ranking] leaves the content count, the reaction count, the
    total and the emoji of every counter as they were and creates or removes
    no counter; a counter that is not in the returned list is unchanged in
    every field, so only ranks of returned counters are written.  For a limit
    that is not negative the returned list has [min(limit, n)] entries, the
    first ones of the sorted order, and when the counters are distinct
    objects those cut off keep the rank they had. *)
Theorem sort_ranking_frame self counters slice_num h :
  allocated h counters →
  ∃ out h',
    EmojiRanking.sort_ranking self counters slice_num h = Some (out, h') ∧
    (∀ r, observe (Counter.content_count r) h' = observe (Counter.content_count r) h ∧
          observe (Counter.reaction_count r) h' = observe (Counter.reaction_count r) h ∧
          observe (Counter.total_count r) h' = observe (Counter.total_count r) h ∧
          observe (Counter.emoji r) h' = observe (Counter.emoji r) h) ∧
    dom h' = dom h ∧
    (∀ r, r ∉ out → h' !! r = h !! r) ∧
    (0 ≤ slice_num →
       let srt := sorted (key_in h)
                    (_SortOrder.reverse (EmojiRanking._order self)) counters in
       out = take (Z.to_nat slice_num) srt ∧
       length out = Nat.min (Z.to_nat slice_num) (length counters) ∧
       (NoDup counters →
          ∀ r, r ∈ drop (Z.to_nat slice_num) srt →
            observe (Counter.rank r) h' = observe (Counter.rank r) h)).
Proof.
  intros Hall.
  destruct (sort_ranking_run self counters slice_num h Hall) as (h' & Hrun & Hinv).
  eexists _, h'. split; [exact Hrun|].
  destruct Hinv as (Hsame & Hframe & _). rewrite firstn_all in Hframe.
  split_and!.
  - intros r. apply same_fields_observe, Hsame.
  - apply set_eq. intros r. rewrite !elem_of_dom.
    specialize (Hsame r). destruct (h' !! r), (h !! r); simpl in Hsame;
      split; intros [? ?]; by simplify_eq.
  - exact Hframe.
  - intros Hpos srt. rewrite slice_to_nonneg in Hframe |- * by done.
    split; [done|]. split.
    { subst srt. by rewrite length_take, (Permutation_length (sorted_perm _ _ _)). }
    intros Hnodup r Hr. rewrite !observe_rank. f_equal. apply Hframe.
    assert (NoDup srt) as Hsrt.
    { subst srt. by rewrite sorted_perm. }
    rewrite <- (take_drop (Z.to_nat slice_num) srt) in Hsrt.
    apply NoDup_app in Hsrt as (_ & Hdisj & _).
    intros Hin. by apply (Hdisj r).
Qed.

Lemma sort_ranking_frame_witness :
  allocated store_5551 [0; 1; 2; 3]%nat ∧ 0 ≤ 2 ∧ NoDup [0; 1; 2; 3]%nat ∧
  ∃ out h',
    EmojiRanking.sort_ranking (cog _SortOrder.DESCENDING false [])
      [0; 1; 2; 3]%nat 2 store_5551 = Some (out, h') ∧
    (∀ r, observe (Counter.content_count r) h'
          = observe (Counter.content_count r) store_5551 ∧
          observe (Counter.reaction_count r) h'
          = observe (Counter.reaction_count r) store_5551 ∧
          observe (Counter.total_count r) h'
          = observe (Counter.total_count r) store_5551 ∧
          observe (Counter.emoji r) h' = observe (Counter.emoji r) store_5551) ∧
    dom h' = dom store_5551 ∧
    (∀ r, r ∉ out → h' !! r = store_5551 !! r) ∧
    out = take (Z.to_nat 2)
            (sorted (key_in store_5551)
               (_SortOrder.reverse
                  (EmojiRanking._order (cog _SortOrder.DESCENDING false [])))
               [0; 1; 2; 3]%nat) ∧
    length out = Nat.min (Z.to_nat 2) (length [0; 1; 2; 3]%nat) ∧
    (∀ r, r ∈ drop (Z.to_nat 2)
                (sorted (key_in store_5551)
                   (_SortOrder.reverse
                      (EmojiRanking._order (cog _SortOrder.DESCENDING false [])))
                   [0; 1; 2; 3]%nat) →
       observe (Counter.rank r) h' = observe (Counter.rank r) store_5551).
Proof.
  assert (allocated store_5551 [0; 1; 2; 3]%nat) as Hall by solve_allocated.
  assert (NoDup [0; 1; 2; 3]%nat) as Hnd
    by exact (bool_decide_unpack (NoDup [0; 1; 2; 3]%nat) I).
  assert (0 ≤ 2) as Hpos by lia.
  split; [exact Hall|]. split; [exact Hpos|]. split; [exact Hnd|].
  destruct (sort_ranking_frame (cog _SortOrder.DESCENDING false [])
              [0; 1; 2; 3]%nat 2 store_5551 Hall)
    as (out & h' & Hrun & Hobs & Hdom & Hframe & Hcut).
  destruct (Hcut Hpos) as (Hout & Hlen & Hrest).
  exists out, h'. split; [exact Hrun|]. split; [exact Hobs|].
  split; [exact Hdom|]. split; [exact Hframe|]. split; [exact Hout|].
  split; [exact Hlen|]. exact (Hrest Hnd).
Defined.

(** ** Running the counting pass *)

Lemma lookup_bump op h r :
  bump op h !! r
  = if decide (fst op = r)
    then (λ c, _EmojiCounter.with_counts c
                 (alter (λ n, n + 1) (snd op) (_EmojiCounter._counts c)))
         <$> h !! r
    else h !! r.
Proof. unfold bump. rewrite lookup_alter. by case_decide; subst. Qed.

Lemma bump_emoji op h r :
  _EmojiCounter._emoji <$> bump op h !! r = _EmojiCounter._emoji <$> h !! r.
Proof. rewrite lookup_bump. case_decide; [|done]. by destruct (h !! r). Qed.

Lemma bump_counting op h refs : counting h refs → counting (bump op h) refs.
Proof.
  intros Hc r Hr. destruct (Hc r Hr) as (c & Hlook & Hkeys).
  rewrite lookup_bump, Hlook. case_decide; simpl; eauto.
  eexists. split; [done|]. intros ty. simpl. by apply lookup_alter_is_Some.
Qed.

Lemma bump_comm a b h : bump a (bump b h) = bump b (bump a h).
Proof.
  destruct a as [ra ta], b as [rb tb].
  apply map_eq. intros r. rewrite !lookup_bump. simpl.
  repeat case_decide; try done.
  destruct (h !! r) as [c|]; simpl; [|done]. f_equal.
  unfold _EmojiCounter.with_counts. simpl. f_equal.
  apply map_eq. intros ty. rewrite !lookup_alter.
  repeat case_decide; simplify_eq; done.
Qed.

Lemma increment_bump h r ty c :
  h !! r = Some c → is_Some (_EmojiCounter._counts c !! ty) →
  Counter.increment r ty h = Some (tt, bump (r, ty) h).
Proof.
  intros Hr [n Hn]. rewrite (increment_run _ _ _ _ _ Hr Hn). do 2 f_equal.
  apply map_eq. intros r'. rewrite lookup_bump, lookup_insert. simpl.
  case_decide; [subst r'|done]. rewrite Hr. simpl. do 2 f_equal.
  apply map_eq. intros ty'. rewrite lookup_alter, lookup_insert.
  case_decide; [subst ty'|done]. by rewrite Hn.
Qed.

Lemma apply_ops_app ops1 ops2 h :
  apply_ops (ops1 ++ ops2) h = apply_ops ops2 (apply_ops ops1 h).
Proof. apply foldl_app. Qed.

Lemma apply_ops_emoji ops : ∀ h r,
  _EmojiCounter._emoji <$> apply_ops ops h !! r = _EmojiCounter._emoji <$> h !! r.
Proof.
  induction ops as [|op ops IH]; intros h r; [done|].
  simpl. by rewrite IH, bump_emoji.
Qed.

Lemma apply_ops_counting ops : ∀ h refs,
  counting h refs → counting (apply_ops ops h) refs.
Proof.
  induction ops as [|op ops IH]; intros h refs Hc; [done|].
  simpl. by apply IH, bump_counting.
Qed.

Lemma apply_ops_perm ops1 ops2 :
  ops1 ≡ₚ ops2 → ∀ h, apply_ops ops1 h = apply_ops ops2 h.
Proof.
  induction 1 as [|op l1 l2 _ IH|a b l|l1 l2 l3 _ IH1 _ IH2]; intros h; simpl.
  - done.
  - apply IH.
  - by rewrite bump_comm.
  - by rewrite IH1.
Qed.

Lemma tracks_bump op h r e : tracks h r e → tracks (bump op h) r e.
Proof.
  intros (c & Hc & He & Hkeys). unfold tracks.
  rewrite lookup_bump, Hc. case_decide; simpl; [|by eauto].
  eexists. split; [done|]. split; [done|].
  intros ty. simpl. by apply lookup_alter_is_Some.
Qed.

Lemma counting_tracks h refs r :
  counting h refs → r ∈ refs → ∃ c, h !! r = Some c ∧ tracks h r (_EmojiCounter._emoji c).
Proof.
  intros Hc Hr. destruct (Hc r Hr) as (c & Hlook & Hkeys).
  exists c. split; [done|]. by exists c.
Qed.

Lemma narrowed_code self reaction :
  (if decide (allowed self ≠ ∅)
   then filter (λ user, User.id user ∈ allowed self) (Reaction.users reaction)
   else Reaction.users reaction)
  = narrowed self reaction.
Proof. unfold narrowed. by repeat case_decide. Qed.

Lemma forallb_bot users :
  forallb User.bot users = true ↔ Forall (λ user, User.bot user = true) users.
Proof.
  induction users as [|u users IH]; simpl.
  - split; [constructor|done].
  - rewrite andb_true_iff, IH, Forall_cons. done.
Qed.

Lemma count_reaction_run self counter reaction h e :
  tracks h counter e →
  EmojiRanking.count_reaction self (allowed self) counter reaction h
  = Some (tt, if decide (reaction_matches e reaction ∧ reaction_qualifies self reaction)
              then bump (counter, _EmojiCountType.MESSAGE_REACTION) h
              else h).
Proof.
  intros (c & Hc & <- & Hkeys). unfold EmojiRanking.count_reaction.
  destruct (Reaction.emoji reaction) as [re|i n|u] eqn:He.
  - erewrite bind_run; [|by apply emoji_run].
    case_decide as Hid.
    { rewrite decide_False; [done|].
      intros [(re' & Hre & Hid') _]. rewrite He in Hre. by simplify_eq. }
    assert (reaction_matches (_EmojiCounter._emoji c) reaction) as Hm.
    { exists re. split; [done|].
      by destruct (decide (Emoji.id re = Emoji.id (_EmojiCounter._emoji c))). }
    cbv zeta. rewrite narrowed_code.
    case_decide as Hnil.
    { rewrite decide_False; [done|]. by intros [_ [Hne _]]. }
    destruct (negb (EmojiRanking._contains_bot self)
              && forallb User.bot (narrowed self reaction)) eqn:Hbots.
    + rewrite decide_False; [done|]. intros [_ [_ Hq]]. apply Hq.
      apply andb_true_iff in Hbots as [Hcb Hall].
      split; [by apply negb_true_iff|by apply forallb_bot].
    + rewrite decide_True; [by eapply increment_bump|].
      split; [done|]. split; [done|]. intros [Hcb Hall].
      apply forallb_bot in Hall. by rewrite Hcb, Hall in Hbots.
  - rewrite decide_False; [done|].
    intros [(re' & Hre & _) _]. rewrite He in Hre. discriminate.
  - rewrite decide_False; [done|].
    intros [(re' & Hre & _) _]. rewrite He in Hre. discriminate.
Qed.

Lemma count_reactions_run self counter e reactions : ∀ h,
  tracks h counter e →
  for_each reactions (EmojiRanking.count_reaction self (allowed self) counter) h
  = Some (tt, apply_ops
                ((λ _, (counter, _EmojiCountType.MESSAGE_REACTION)) <$>
                   filter (λ reaction, reaction_matches e reaction ∧
                                       reaction_qualifies self reaction)
                     reactions) h).
Proof.
  induction reactions as [|x rs IH]; intros h Ht; [done|].
  cbn [for_each]. erewrite bind_run; [|by apply count_reaction_run].
  rewrite filter_cons. case_decide.
  - rewrite fmap_cons. cbn [apply_ops foldl]. by apply IH, tracks_bump.
  - by apply IH.
Qed.

Lemma text_qualifies_code self e message :
  text_qualifies self e message ↔
    (bool_decide (allowed self = ∅)
     || bool_decide (User.id (Message.author message) ∈ allowed self)) = true ∧
    str_contains (Emoji.name e) (Message.content message) = true ∧
    EmojiRanking._contains_bot self
    || negb (User.bot (Message.author message)) = true.
Proof.
  unfold text_qualifies.
  rewrite !orb_true_iff, !bool_decide_eq_true, negb_true_iff.
  destruct (EmojiRanking._contains_bot self),
    (User.bot (Message.author message)),
    (decide (allowed self = ∅)); intuition congruence.
Qed.

Lemma count_counter_run self message counter h e :
  tracks h counter e →
  EmojiRanking.count_counter self (allowed self) message
    (bool_decide (allowed self = ∅)
     || bool_decide (User.id (Message.author message) ∈ allowed self))
    counter h
  = Some (tt, apply_ops (counter_ops self h message counter) h).
Proof.
  intros Ht. pose proof Ht as (c & Hc & <- & Hkeys).
  unfold EmojiRanking.count_counter, counter_ops. rewrite Hc.
  pose proof (text_qualifies_code self (_EmojiCounter._emoji c) message) as Hq.
  rewrite apply_ops_app.
  destruct (bool_decide (allowed self = ∅)
            || bool_decide (User.id (Message.author message) ∈ allowed self)).
  - erewrite bind_run; [|by erewrite bind_run; [|by apply emoji_run]].
    destruct (str_contains _ _).
    + destruct (EmojiRanking._contains_bot self
                || negb (User.bot (Message.author message))).
      * rewrite decide_True by (by apply Hq).
        erewrite bind_run; [|by eapply increment_bump].
        by apply count_reactions_run, tracks_bump.
      * rewrite decide_False by (rewrite Hq; intros (? & ? & ?); discriminate).
        erewrite bind_run; [|reflexivity].
        by apply count_reactions_run.
    + rewrite decide_False by (rewrite Hq; intros (? & ? & ?); discriminate).
      erewrite bind_run; [|reflexivity].
      by apply count_reactions_run.
  - erewrite bind_run; [|reflexivity].
    rewrite decide_False by (rewrite Hq; intros (? & ? & ?); discriminate).
    erewrite bind_run; [|reflexivity].
    by apply count_reactions_run.
Qed.

Lemma counter_ops_ext self (h h' : gmap nat _EmojiCounter.t) message r :
  _EmojiCounter._emoji <$> h' !! r = _EmojiCounter._emoji <$> h !! r →
  counter_ops self h' message r = counter_ops self h message r.
Proof.
  unfold counter_ops. destruct (h' !! r) as [c'|], (h !! r) as [c|]; simpl; try done.
  by intros [= ->].
Qed.

Lemma message_ops_ext self (h h' : gmap nat _EmojiCounter.t) counters message :
  (∀ r, _EmojiCounter._emoji <$> h' !! r = _EmojiCounter._emoji <$> h !! r) →
  message_ops self h' counters message = message_ops self h counters message.
Proof.
  intros Hext. unfold message_ops.
  induction counters as [|r cs IH]; [done|].
  by rewrite !bind_cons, IH, (counter_ops_ext _ _ _ _ _ (Hext r)).
Qed.

Lemma pass_ops_ext self (h h' : gmap nat _EmojiCounter.t) counters messages :
  (∀ r, _EmojiCounter._emoji <$> h' !! r = _EmojiCounter._emoji <$> h !! r) →
  pass_ops self h' counters messages = pass_ops self h counters messages.
Proof.
  intros Hext. unfold pass_ops.
  induction messages as [|m ms IH]; [done|].
  by rewrite !bind_cons, IH, (message_ops_ext _ _ _ _ _ Hext).
Qed.

Lemma pass_ops_app self h counters ms1 ms2 :
  pass_ops self h counters (ms1 ++ ms2)
  = pass_ops self h counters ms1 ++ pass_ops self h counters ms2.
Proof. apply bind_app. Qed.

Lemma pass_ops_single self h counters message :
  pass_ops self h counters [message] = message_ops self h counters message.
Proof. unfold pass_ops. simpl. apply app_nil_r. Qed.

Lemma count_counters_run self message counters : ∀ h,
  counting h counters →
  for_each counters
    (EmojiRanking.count_counter self (allowed self) message
       (bool_decide (allowed self = ∅)
        || bool_decide (User.id (Message.author message) ∈ allowed self))) h
  = Some (tt, apply_ops (message_ops self h counters message) h).
Proof.
  induction counters as [|r cs IH]; intros h Hc; [done|].
  destruct (counting_tracks h (r :: cs) r Hc) as (c & Hlook & Ht); [by left|].
  cbn [for_each]. erewrite bind_run; [|by eapply count_counter_run].
  rewrite IH.
  - unfold message_ops. rewrite bind_cons, apply_ops_app. do 3 f_equal.
    apply (message_ops_ext self h). intros r'. apply apply_ops_emoji.
  - apply apply_ops_counting. intros r' Hr'. apply Hc. by right.
Qed.

Lemma count_message_run self counters message h :
  counting h counters →
  EmojiRanking.count_message self (allowed self) counters message h
  = Some (tt, apply_ops (message_ops self h counters message) h).
Proof. apply count_counters_run. Qed.

Lemma count_messages_run self counters messages : ∀ h,
  counting h counters →
  for_each messages (EmojiRanking.count_message self (allowed self) counters) h
  = Some (tt, apply_ops (pass_ops self h counters messages) h).
Proof.
  induction messages as [|m ms IH]; intros h Hc; [done|].
  cbn [for_each]. erewrite bind_run; [|by apply count_message_run].
  rewrite IH by (by apply apply_ops_counting).
  unfold pass_ops. rewrite bind_cons, apply_ops_app. do 3 f_equal.
  apply (pass_ops_ext self h). intros r'. apply apply_ops_emoji.
Qed.

(** A pass performs the increments of its messages, and nothing else. *)
Lemma count_emojis_run self counters messages h :
  counting h counters →
  EmojiRanking.count_emojis self counters messages h
  = Some (counters, apply_ops (pass_ops self h counters messages) h).
Proof.
  intros Hc. unfold EmojiRanking.count_emojis. cbv zeta.
  by erewrite bind_run; [|by apply count_messages_run].
Qed.

Lemma count_channels_run self counters batches : ∀ h,
  counting h counters →
  EmojiRanking.count_channels self counters batches h
  = Some (counters, apply_ops (pass_ops self h counters (concat batches)) h).
Proof.
  induction batches as [|ms bs IH]; intros h Hc; [done|].
  cbn [EmojiRanking.count_channels concat].
  erewrite bind_run; [|by apply count_emojis_run].
  rewrite IH by (by apply apply_ops_counting).
  rewrite pass_ops_app, apply_ops_app. do 3 f_equal.
  apply (pass_ops_ext self h). intros r'. apply apply_ops_emoji.
Qed.

(** ** The tallies after a pass *)

Lemma observe_content_tally h r :
  observe (Counter.content_count r) h = tally _EmojiCountType.MESSAGE_CONTENT h r.
Proof. apply observe_content_count. Qed.

Lemma observe_reaction_tally h r :
  observe (Counter.reaction_count r) h = tally _EmojiCountType.MESSAGE_REACTION h r.
Proof. apply observe_reaction_count. Qed.

Lemma tally_bump ty op h r :
  tally ty (bump op h) r
  = (λ n, if decide (op = (r, ty)) then n + 1 else n) <$> tally ty h r.
Proof.
  destruct op as [r' ty']. unfold tally. rewrite lookup_bump. simpl.
  destruct (decide (r' = r)) as [->|Hr].
  - destruct (h !! r) as [c|]; simpl; [|done].
    rewrite lookup_alter. destruct (decide (ty' = ty)) as [->|Hty];
      destruct (_EmojiCounter._counts c !! ty); simpl; try done.
    + by rewrite decide_True.
    + by rewrite decide_False by congruence.
  - destruct (h !! r ≫= _); simpl; [|done].
    by rewrite decide_False by congruence.
Qed.

Lemma tally_apply_ops ty r ops : ∀ h,
  tally ty (apply_ops ops h) r
  = (λ n, n + Z.of_nat (length (filter (λ op, op = (r, ty)) ops)))
    <$> tally ty h r.
Proof.
  induction ops as [|op ops IH]; intros h.
  - simpl. destruct (tally ty h r); simpl; [|done]. f_equal. lia.
  - cbn [apply_ops foldl]. fold (apply_ops ops (bump op h)).
    rewrite IH, tally_bump, filter_cons.
    destruct (tally ty h r); simpl; [|done]. f_equal.
    case_decide; simpl; lia.
Qed.

Lemma sum_values_both (m : gmap _EmojiCountType.t Z) a b :
  m !! _EmojiCountType.MESSAGE_CONTENT = Some a →
  m !! _EmojiCountType.MESSAGE_REACTION = Some b →
  _EmojiCounter.sum_values m = a + b.
Proof.
  intros Ha Hb.
  assert (m = <[_EmojiCountType.MESSAGE_CONTENT := a]>
                (<[_EmojiCountType.MESSAGE_REACTION := b]> ∅)) as ->.
  { apply map_eq. intros [].
    - by rewrite lookup_insert_eq.
    - by rewrite lookup_insert_ne, lookup_insert_eq. }
  unfold _EmojiCounter.sum_values.
  rewrite map_fold_insert_L.
  - rewrite map_fold_insert_L.
    + rewrite map_fold_empty. lia.
    + intros. lia.
    + done.
  - intros. lia.
  - by rewrite lookup_insert_ne.
Qed.

Lemma filter_none {A} (P : A → Prop) `{!∀ x, Decision (P x)} (l : list A) :
  (∀ x, x ∈ l → ¬ P x) → filter P l = [].
Proof.
  induction l as [|x l IH]; intros Hl; [done|].
  rewrite filter_cons_False by (apply Hl; by left).
  apply IH. intros y Hy. apply Hl. by right.
Qed.

(** The ops of one counter only touch that counter. *)
Lemma counter_ops_fst self h message r op :
  op ∈ counter_ops self h message r → fst op = r.
Proof.
  unfold counter_ops. destruct (h !! r) as [c|]; [|by intros ?%elem_of_nil].
  rewrite elem_of_app. intros [Hop|Hop].
  - case_decide; [|by apply elem_of_nil in Hop].
    by apply list_elem_of_singleton in Hop as ->.
  - by apply list_elem_of_fmap in Hop as (? & -> & _).
Qed.

Lemma filter_message_ops self h message counters r ty :
  NoDup counters → r ∈ counters →
  filter (λ op, op = (r, ty)) (message_ops self h counters message)
  = filter (λ op, op = (r, ty)) (counter_ops self h message r).
Proof.
  unfold message_ops.
  assert (∀ cs, r ∉ cs →
    filter (λ op, op = (r, ty)) (cs ≫= counter_ops self h message) = []) as Hout.
  { intros cs Hr. apply filter_none. intros op Hop ->.
    apply list_elem_of_bind in Hop as (r' & Hop & Hr').
    apply counter_ops_fst in Hop. simpl in Hop. by subst. }
  induction 1 as [|r' cs Hr' Hnd IH]; intros Hr; [by apply elem_of_nil in Hr|].
  rewrite bind_cons, filter_app.
  destruct (decide (r = r')) as [<-|Hne].
  - by rewrite (Hout cs Hr'), app_nil_r.
  - rewrite IH by (by apply elem_of_cons in Hr as [?|?]).
    rewrite filter_none; [done|].
    intros op Hop ->. apply counter_ops_fst in Hop. simpl in Hop. by subst.
Qed.

Lemma filter_counter_ops_content self h message r c :
  h !! r = Some c →
  length (filter (λ op, op = (r, _EmojiCountType.MESSAGE_CONTENT))
            (counter_ops self h message r))
  = if decide (text_qualifies self (_EmojiCounter._emoji c) message)
    then 1%nat else 0%nat.
Proof.
  intros Hc. unfold counter_ops. rewrite Hc, filter_app.
  rewrite (filter_none _ (_ <$> _)).
  - case_decide; [by rewrite filter_cons_True|done].
  - intros op Hop ->. by apply list_elem_of_fmap in Hop as (? & [=] & _).
Qed.

Lemma filter_counter_ops_reaction self h message r c :
  h !! r = Some c →
  length (filter (λ op, op = (r, _EmojiCountType.MESSAGE_REACTION))
            (counter_ops self h message r))
  = length (filter (λ reaction,
                      reaction_matches (_EmojiCounter._emoji c) reaction ∧
                      reaction_qualifies self reaction)
              (Message.reactions message)).
Proof.
  intros Hc. unfold counter_ops. rewrite Hc, filter_app.
  rewrite filter_none.
  - simpl. generalize (filter (λ reaction,
      reaction_matches (_EmojiCounter._emoji c) reaction ∧
      reaction_qualifies self reaction) (Message.reactions message)).
    intros l. induction l as [|x l IH]; [done|].
    rewrite fmap_cons, filter_cons_True by done. simpl. by rewrite IH.
  - intros op Hop ->. case_decide; [|by apply elem_of_nil in Hop].
    by apply list_elem_of_singleton in Hop.
Qed.


Lemma pass_ops_cons self h counters message messages :
  pass_ops self h counters (message :: messages)
  = message_ops self h counters message ++ pass_ops self h counters messages.
Proof. apply bind_cons. Qed.

Lemma pass_ops_counts self h counters messages r c :
  NoDup counters → r ∈ counters → h !! r = Some c →
  length (filter (λ op, op = (r, _EmojiCountType.MESSAGE_CONTENT))
            (pass_ops self h counters messages))
  = length (filter (text_qualifies self (_EmojiCounter._emoji c)) messages) ∧
  length (filter (λ op, op = (r, _EmojiCountType.MESSAGE_REACTION))
            (pass_ops self h counters messages))
  = length (filter (λ reaction,
                      reaction_matches (_EmojiCounter._emoji c) reaction ∧
                      reaction_qualifies self reaction)
              (messages ≫= Message.reactions)).
Proof.
  intros Hnd Hr Hc. induction messages as [|m ms [IHc IHr]]; [done|].
  rewrite pass_ops_cons, bind_cons, !filter_app, !length_app.
  rewrite !(filter_message_ops _ _ _ _ _ _ Hnd Hr).
  rewrite (filter_counter_ops_content _ _ _ _ _ Hc).
  rewrite (filter_counter_ops_reaction _ _ _ _ _ Hc).
  rewrite IHc, IHr. split; [|done].
  rewrite filter_cons. by case_decide.
Qed.

(** The tallies of one counter after a pass over any messages. *)
Lemma count_emojis_tallies self counters messages h r c :
  counting h counters → NoDup counters → r ∈ counters → h !! r = Some c →
  ∃ h',
    EmojiRanking.count_emojis self counters messages h = Some (counters, h') ∧
    tally _EmojiCountType.MESSAGE_CONTENT h' r
    = (λ n, n + Z.of_nat (length (filter
                (text_qualifies self (_EmojiCounter._emoji c)) messages)))
      <$> tally _EmojiCountType.MESSAGE_CONTENT h r ∧
    tally _EmojiCountType.MESSAGE_REACTION h' r
    = (λ n, n + Z.of_nat (length (filter
                (λ reaction,
                   reaction_matches (_EmojiCounter._emoji c) reaction ∧
                   reaction_qualifies self reaction)
                (messages ≫= Message.reactions))))
      <$> tally _EmojiCountType.MESSAGE_REACTION h r.
Proof.
  intros Hc Hnd Hr Hlook.
  eexists. split; [by apply count_emojis_run|].
  destruct (pass_ops_counts self h counters messages r c Hnd Hr Hlook)
    as [Hcontent Hreaction].
  by rewrite !tally_apply_ops, Hcontent, Hreaction.
Qed.

(** A message of a bot yields no content increment when bot activity is
    excluded. *)
Lemma bot_message_no_content self h counters message r :
  EmojiRanking._contains_bot self = false →
  User.bot (Message.author message) = true →
  filter (λ op, op = (r, _EmojiCountType.MESSAGE_CONTENT))
    (message_ops self h counters message) = [].
Proof.
  intros Hbot Hauthor. apply filter_none. intros op Hop ->.
  unfold message_ops in Hop.
  apply list_elem_of_bind in Hop as (r' & Hop & Hr').
  unfold counter_ops in Hop.
  destruct (h !! r') as [c|]; [|by apply elem_of_nil in Hop].
  apply elem_of_app in Hop as [Hop|Hop].
  - case_decide as Hq; [|by apply elem_of_nil in Hop].
    destruct Hq as (_ & _ & Hq). by apply Hq.
  - by apply list_elem_of_fmap in Hop as (? & [=] & _).
Qed.

Lemma prefix_spec sub : ∀ s,
  String.prefix sub s = true ↔ ∃ b, s = sub +:+ b.
Proof.
  induction sub as [|a sub IH]; intros s.
  - split; [by exists s|]. intros _. by destruct s.
  - destruct s as [|c s]; simpl.
    + split; [done|]. intros [b Hb]. discriminate Hb.
    + destruct (Ascii.ascii_dec a c) as [->|Hne].
      * rewrite IH. split; intros [b Hb]; exists b.
        -- by rewrite Hb.
        -- by injection Hb.
      * split; [done|]. intros [b Hb]. injection Hb as Hac _. done.
Qed.

(** [str_contains] decides whether [sub] is a literal substring of [s]. *)
Lemma str_contains_spec sub s :
  str_contains sub s = true ↔ ∃ a b, s = a +:+ sub +:+ b.
Proof.
  induction s as [|c s IH]; cbn [str_contains].
  - rewrite orb_false_r, prefix_spec. split.
    + intros [b Hb]. by exists ""%string, b.
    + intros (a & b & Hab). destruct a; [|done]. by exists b.
  - rewrite orb_true_iff, prefix_spec, IH. split.
    + intros [[b Hb]|(a & b & Hab)].
      * by exists ""%string, b.
      * exists (String c a), b. simpl. by rewrite Hab.
    + intros (a & b & Hab). destruct a as [|c' a].
      * left. by exists b.
      * right. exists a, b. simpl in Hab. by injection Hab.
Qed.

(** ** The counting pass *)

(** C7: feeding batches of messages through [count_emojis] one after the
    other against the same counters gives the same store, and so the same
    content and reaction count for every counter, for any two lists of
    batches that hold the same messages, in whatever order and split;
    in particular for [a, b] then [c] and for [c] then [a, b] then nothing. *)
Theorem counting_batch_independent self counters batches1 batches2 h :
  counting h counters →
  concat batches1 ≡ₚ concat batches2 →
  ∃ h1 h2,
    EmojiRanking.count_channels self counters batches1 h = Some (counters, h1) ∧
    EmojiRanking.count_channels self counters batches2 h = Some (counters, h2) ∧
    h1 = h2 ∧
    (∀ r, observe (Counter.content_count r) h1
          = observe (Counter.content_count r) h2 ∧
          observe (Counter.reaction_count r) h1
          = observe (Counter.reaction_count r) h2) ∧
    (∀ a b c,
       EmojiRanking.count_channels self counters [[a; b]; [c]] h
       = EmojiRanking.count_channels self counters [[c]; [a; b]; []] h).
Proof.
  intros Hc Hperm.
  assert (∀ bs1 bs2, concat bs1 ≡ₚ concat bs2 →
    EmojiRanking.count_channels self counters bs1 h
    = EmojiRanking.count_channels self counters bs2 h) as Heq.
  { intros bs1 bs2 Hp. rewrite !count_channels_run by done. do 2 f_equal.
    apply apply_ops_perm. unfold pass_ops. by rewrite Hp. }
  eexists _, _. split; [by apply count_channels_run|].
  split; [rewrite <- (Heq _ _ Hperm); by apply count_channels_run|].
  split; [done|]. split; [done|].
  intros a b c. apply Heq. simpl.
  by rewrite (Permutation_app_comm [a; b] [c]).
Qed.

Lemma counting_batch_independent_witness :
  counting store_5531 [0; 1; 2; 3]%nat ∧
  concat [[text_message (human 1) "A B"; text_message (robot 2) "C"];
          [reacted_message (human 3) (Reaction.IsEmoji emoji_A) [human 1]]]
  ≡ₚ concat [[reacted_message (human 3) (Reaction.IsEmoji emoji_A) [human 1]];
             [text_message (human 1) "A B"; text_message (robot 2) "C"]; []] ∧
  ∃ h1 h2,
    EmojiRanking.count_channels (cog _SortOrder.DESCENDING false [])
      [0; 1; 2; 3]%nat
      [[text_message (human 1) "A B"; text_message (robot 2) "C"];
       [reacted_message (human 3) (Reaction.IsEmoji emoji_A) [human 1]]]
      store_5531 = Some ([0; 1; 2; 3]%nat, h1) ∧
    EmojiRanking.count_channels (cog _SortOrder.DESCENDING false [])
      [0; 1; 2; 3]%nat
      [[reacted_message (human 3) (Reaction.IsEmoji emoji_A) [human 1]];
       [text_message (human 1) "A B"; text_message (robot 2) "C"]; []]
      store_5531 = Some ([0; 1; 2; 3]%nat, h2) ∧
    h1 = h2 ∧
    observe (Counter.content_count 0%nat) h1 = Some 4 ∧
    observe (Counter.reaction_count 0%nat) h1 = Some 3.
Proof.
  assert (counting store_5531 [0; 1; 2; 3]%nat) as Hcnt by solve_counting.
  assert (concat [[text_message (human 1) "A B"; text_message (robot 2) "C"];
          [reacted_message (human 3) (Reaction.IsEmoji emoji_A) [human 1]]]
  ≡ₚ concat [[reacted_message (human 3) (Reaction.IsEmoji emoji_A) [human 1]];
             [text_message (human 1) "A B"; text_message (robot 2) "C"]; []])
    as Hperm.
  { simpl. apply (Permutation_app_comm [_; _] [_]). }
  split; [exact Hcnt|]. split; [exact Hperm|].
  destruct (counting_batch_independent (cog _SortOrder.DESCENDING false [])
              _ _ _ _ Hcnt Hperm)
    as (h1 & h2 & Hrun1 & Hrun2 & Heq & _).
  exists h1, h2. split; [exact Hrun1|]. split; [exact Hrun2|]. split; [exact Heq|].
  vm_compute in Hrun1. injection Hrun1 as <-. by vm_compute.
Defined.

(** C5: with bot activity excluded, a message written by a bot adds nothing
    to the content count of any counter, whatever its text and wherever it
    stands in the history: the pass over a history with the message ends in
    the same content counts as the pass over the history without it, and a
    pass over messages of bots only leaves every content count as it was.
    A bot message whose text holds the name of every emoji of the guild
    yields a content count of 0 for each, also between two messages of
    humans that are counted. *)
Theorem bot_author_text_excluded :
  (∀ self counters before message after h,
     counting h counters →
     EmojiRanking._contains_bot self = false →
     User.bot (Message.author message) = true →
     ∃ h1 h2,
       EmojiRanking.count_emojis self counters (before ++ message :: after) h
       = Some (counters, h1) ∧
       EmojiRanking.count_emojis self counters (before ++ after) h
       = Some (counters, h2) ∧
       ∀ r, observe (Counter.content_count r) h1
            = observe (Counter.content_count r) h2) ∧
  (∀ self counters messages h,
     counting h counters →
     EmojiRanking._contains_bot self = false →
     Forall (λ message, User.bot (Message.author message) = true) messages →
     ∃ h',
       EmojiRanking.count_emojis self counters messages h = Some (counters, h') ∧
       ∀ r, observe (Counter.content_count r) h'
            = observe (Counter.content_count r) h) ∧
  observe (EmojiRanking._execute (cog _SortOrder.DESCENDING false [])
             [emoji_A; emoji_B] [[text_message (robot 2) "A B"]]) ∅
  = Some [("A"%string, 1, 0, 0, 0); ("B"%string, 1, 0, 0, 0)] ∧
  observe (EmojiRanking._execute (cog _SortOrder.DESCENDING false [])
             [emoji_A; emoji_B]
             [[text_message (human 1) "A"; text_message (robot 2) "A B";
               text_message (human 3) "B"]]) ∅
  = Some [("A"%string, 1, 1, 1, 0); ("B"%string, 1, 1, 1, 0)].
Proof.
  split; [|split; [|by vm_compute]].
  - intros self counters before message after h Hc Hbot Hauthor.
    eexists _, _. split; [by apply count_emojis_run|].
    split; [by apply count_emojis_run|].
    intros r. rewrite !observe_content_tally, !tally_apply_ops.
    rewrite !pass_ops_app, pass_ops_cons, !filter_app.
    by rewrite (bot_message_no_content _ _ _ _ _ Hbot Hauthor).
  - intros self counters messages h Hc Hbot Hmsgs.
    eexists. split; [by apply count_emojis_run|].
    intros r. rewrite !observe_content_tally, tally_apply_ops.
    rewrite filter_none.
    { destruct (tally _ h r); simpl; [|done]. f_equal. lia. }
    intros op Hop Heq. unfold pass_ops in Hop.
    apply list_elem_of_bind in Hop as (m & Hop & Hm).
    rewrite Forall_forall in Hmsgs.
    pose proof (bot_message_no_content self h counters m r Hbot (Hmsgs m Hm))
      as Hnone.
    assert (op ∈ filter (λ op, op = (r, _EmojiCountType.MESSAGE_CONTENT))
                   (message_ops self h counters m)) as Hin
      by (by apply list_elem_of_filter).
    rewrite Hnone in Hin. by apply elem_of_nil in Hin.
Qed.

Lemma bot_author_text_excluded_witness :
  counting store_5531 [0; 1; 2; 3]%nat ∧
  EmojiRanking._contains_bot (cog _SortOrder.DESCENDING false []) = false ∧
  User.bot (Message.author (text_message (robot 2) "A B C D")) = true ∧
  Forall (λ message, User.bot (Message.author message) = true)
    [text_message (robot 2) "A B C D"] ∧
  (∃ h1 h2,
    EmojiRanking.count_emojis (cog _SortOrder.DESCENDING false [])
      [0; 1; 2; 3]%nat
      ([text_message (human 1) "A B"] ++ text_message (robot 2) "A B C D"
         :: [text_message (human 3) "C"]) store_5531
    = Some ([0; 1; 2; 3]%nat, h1) ∧
    EmojiRanking.count_emojis (cog _SortOrder.DESCENDING false [])
      [0; 1; 2; 3]%nat
      ([text_message (human 1) "A B"] ++ [text_message (human 3) "C"])
      store_5531
    = Some ([0; 1; 2; 3]%nat, h2) ∧
    ∀ r, observe (Counter.content_count r) h1
         = observe (Counter.content_count r) h2) ∧
  ∃ h',
    EmojiRanking.count_emojis (cog _SortOrder.DESCENDING false [])
      [0; 1; 2; 3]%nat [text_message (robot 2) "A B C D"] store_5531
    = Some ([0; 1; 2; 3]%nat, h') ∧
    ∀ r, observe (Counter.content_count r) h'
         = observe (Counter.content_count r) store_5531.
Proof.
  assert (counting store_5531 [0; 1; 2; 3]%nat) as Hcnt by solve_counting.
  assert (User.bot (Message.author (text_message (robot 2) "A B C D")) = true)
    as Hbot by reflexivity.
  assert (Forall (λ message, User.bot (Message.author message) = true)
            [text_message (robot 2) "A B C D"]) as Hbots.
  { repeat constructor. }
  split; [exact Hcnt|]. split; [reflexivity|]. split; [exact Hbot|].
  split; [exact Hbots|]. split.
  - exact (proj1 bot_author_text_excluded (cog _SortOrder.DESCENDING false [])
             _ [text_message (human 1) "A B"] _ [text_message (human 3) "C"]
             _ Hcnt eq_refl Hbot).
  - exact (proj1 (proj2 bot_author_text_excluded)
             (cog _SortOrder.DESCENDING false []) _ _ _ Hcnt eq_refl Hbots).
Defined.

(** C6: every message of a history adds exactly 1 to the content count of
    a counter when the name of its emoji occurs in the text, the author
    passes the author filter (if there is one) and the bot guard, and adds
    nothing otherwise: the pass over a history with the message ends in a
    content count 1 above, or equal to, that of the pass over the history
    without it, and after a pass the content count has grown by the number
    of messages of the history that qualify.  [str_contains] holds exactly
    of literal substrings, and a name that occurs three times in one text
    still counts once. *)
Theorem content_count_once_per_message :
  (∀ self counters before message after h r,
     counting h counters → NoDup counters → r ∈ counters →
     ∃ c n h1 h2,
       h !! r = Some c ∧
       EmojiRanking.count_emojis self counters (before ++ after) h
       = Some (counters, h1) ∧
       EmojiRanking.count_emojis self counters (before ++ message :: after) h
       = Some (counters, h2) ∧
       observe (Counter.content_count r) h1 = Some n ∧
       (text_qualifies self (_EmojiCounter._emoji c) message →
          observe (Counter.content_count r) h2 = Some (n + 1)) ∧
       (¬ text_qualifies self (_EmojiCounter._emoji c) message →
          observe (Counter.content_count r) h2 = Some n)) ∧
  (∀ self counters messages h r,
     counting h counters → NoDup counters → r ∈ counters →
     ∃ c n h',
       h !! r = Some c ∧
       observe (Counter.content_count r) h = Some n ∧
       EmojiRanking.count_emojis self counters messages h = Some (counters, h') ∧
       observe (Counter.content_count r) h'
       = Some (n + Z.of_nat
                     (length
                        (filter (text_qualifies self (_EmojiCounter._emoji c))
                           messages)))) ∧
  (∀ sub s, str_contains sub s = true ↔ ∃ a b, s = a +:+ sub +:+ b) ∧
  observe (EmojiRanking._execute (cog _SortOrder.DESCENDING false [])
             [emoji_A; emoji_B] [[text_message (human 1) "A, A and A"]]) ∅
  = Some [("A"%string, 1, 1, 1, 0); ("B"%string, 2, 0, 0, 0)] ∧
  observe (EmojiRanking._execute (cog _SortOrder.DESCENDING false [])
             [emoji_A; emoji_B]
             [[text_message (human 1) "A, A and A"; text_message (human 3) "B";
               text_message (human 1) "an A"]]) ∅
  = Some [("A"%string, 1, 2, 2, 0); ("B"%string, 2, 1, 1, 0)].
Proof.
  split; [|split; [|split; [apply str_contains_spec|by vm_compute]]].
  - intros self counters before message after h r Hc Hnd Hr.
    destruct (Hc r Hr) as (c & Hlook & Hkeys).
    destruct (Hkeys _EmojiCountType.MESSAGE_CONTENT) as [n Hn].
    assert (tally _EmojiCountType.MESSAGE_CONTENT h r = Some n) as Ht.
    { unfold tally. by rewrite Hlook. }
    destruct (count_emojis_tallies self counters (before ++ after) h r c
                Hc Hnd Hr Hlook) as (h1 & Hrun1 & Hcount1 & _).
    destruct (count_emojis_tallies self counters (before ++ message :: after)
                h r c Hc Hnd Hr Hlook) as (h2 & Hrun2 & Hcount2 & _).
    rewrite Ht in Hcount1, Hcount2. cbn [fmap option_fmap option_map] in *.
    rewrite filter_app, filter_cons, length_app in Hcount2.
    rewrite filter_app, length_app in Hcount1.
    eexists c, _, h1, h2. split; [done|]. split; [done|]. split; [done|].
    rewrite !observe_content_tally. split; [exact Hcount1|].
    split; intros Hq; rewrite Hcount2.
    + rewrite decide_True by done. cbn [length]. f_equal. lia.
    + by rewrite decide_False by done.
  - intros self counters messages h r Hc Hnd Hr.
    destruct (Hc r Hr) as (c & Hlook & Hkeys).
    destruct (Hkeys _EmojiCountType.MESSAGE_CONTENT) as [n Hn].
    assert (tally _EmojiCountType.MESSAGE_CONTENT h r = Some n) as Ht.
    { unfold tally. by rewrite Hlook. }
    destruct (count_emojis_tallies self counters messages h r c
                Hc Hnd Hr Hlook) as (h' & Hrun & Hcount & _).
    exists c, n, h'. split; [done|].
    rewrite !observe_content_tally. split; [done|]. split; [done|].
    by rewrite Hcount, Ht.
Qed.

Lemma content_count_once_per_message_witness :
  counting store_5531 [0; 1; 2; 3]%nat ∧ NoDup [0; 1; 2; 3]%nat ∧
  (0%nat ∈ [0; 1; 2; 3]%nat) ∧
  (∃ c n h1 h2,
    store_5531 !! 0%nat = Some c ∧
    EmojiRanking.count_emojis (cog _SortOrder.DESCENDING false [])
      [0; 1; 2; 3]%nat
      ([text_message (human 1) "an A"] ++ [text_message (human 3) "B"])
      store_5531
    = Some ([0; 1; 2; 3]%nat, h1) ∧
    EmojiRanking.count_emojis (cog _SortOrder.DESCENDING false [])
      [0; 1; 2; 3]%nat
      ([text_message (human 1) "an A"] ++ text_message (human 1) "A, A and A"
         :: [text_message (human 3) "B"]) store_5531
    = Some ([0; 1; 2; 3]%nat, h2) ∧
    observe (Counter.content_count 0%nat) h1 = Some n ∧
    (text_qualifies (cog _SortOrder.DESCENDING false [])
       (_EmojiCounter._emoji c) (text_message (human 1) "A, A and A") →
       observe (Counter.content_count 0%nat) h2 = Some (n + 1)) ∧
    (¬ text_qualifies (cog _SortOrder.DESCENDING false [])
         (_EmojiCounter._emoji c) (text_message (human 1) "A, A and A") →
       observe (Counter.content_count 0%nat) h2 = Some n)) ∧
  ∃ c n h',
    store_5531 !! 0%nat = Some c ∧
    observe (Counter.content_count 0%nat) store_5531 = Some n ∧
    EmojiRanking.count_emojis (cog _SortOrder.DESCENDING false [])
      [0; 1; 2; 3]%nat
      [text_message (human 1) "an A"; text_message (human 1) "A, A and A";
       text_message (human 3) "B"] store_5531
    = Some ([0; 1; 2; 3]%nat, h') ∧
    observe (Counter.content_count 0%nat) h'
    = Some (n + Z.of_nat
                  (length
                     (filter (text_qualifies (cog _SortOrder.DESCENDING false [])
                                (_EmojiCounter._emoji c))
                        [text_message (human 1) "an A";
                         text_message (human 1) "A, A and A";
                         text_message (human 3) "B"]))).
Proof.
  assert (counting store_5531 [0; 1; 2; 3]%nat) as Hcnt by solve_counting.
  assert (NoDup [0; 1; 2; 3]%nat) as Hnd
    by exact (bool_decide_unpack (NoDup [0; 1; 2; 3]%nat) I).
  assert (0%nat ∈ [0; 1; 2; 3]%nat) as Hin by (by left).
  split; [exact Hcnt|]. split; [exact Hnd|]. split; [exact Hin|]. split.
  - exact (proj1 content_count_once_per_message
             (cog _SortOrder.DESCENDING false []) _
             [text_message (human 1) "an A"]
             (text_message (human 1) "A, A and A")
             [text_message (human 3) "B"] _ _ Hcnt Hnd Hin).
  - exact (proj1 (proj2 content_count_once_per_message)
             (cog _SortOrder.DESCENDING false []) _ _ _ _ Hcnt Hnd Hin).
Defined.

(** C2: a reaction entry that refers to the emoji of a counter adds exactly 1
    to its reaction count when the users left by the author filter are not
    none and are not all bots while bot activity is excluded, and adds
    nothing otherwise, on whatever message of whatever history it stands:
    the pass over a history with the entry ends in a reaction count 1 above,
    or equal to, that of the pass over the history without it; an entry that
    refers to another emoji adds nothing.  After a pass the reaction count
    has grown by the number of such entries on the messages of the history,
    one per entry however many users applied it, and the body of the loop
    over the reactions does just this for one entry.  With bot activity
    excluded and no author filter, an entry of two bots and one human counts
    1, an entry of three humans counts 1, and an entry of bots only counts
    0. *)
Theorem reaction_count_once_per_entry :
  (∀ self counters before author content reactions1 reaction reactions2
     after h r,
     counting h counters → NoDup counters → r ∈ counters →
     ∃ c n h1 h2,
       h !! r = Some c ∧
       EmojiRanking.count_emojis self counters
         (before
          ++ {| Message.author := author; Message.content := content;
                Message.reactions := reactions1 ++ reactions2 |} :: after) h
       = Some (counters, h1) ∧
       EmojiRanking.count_emojis self counters
         (before
          ++ {| Message.author := author; Message.content := content;
                Message.reactions := reactions1 ++ reaction :: reactions2 |}
             :: after) h
       = Some (counters, h2) ∧
       observe (Counter.reaction_count r) h1 = Some n ∧
       (reaction_matches (_EmojiCounter._emoji c) reaction →
        reaction_qualifies self reaction →
          observe (Counter.reaction_count r) h2 = Some (n + 1)) ∧
       (reaction_matches (_EmojiCounter._emoji c) reaction →
        ¬ reaction_qualifies self reaction →
          observe (Counter.reaction_count r) h2 = Some n) ∧
       (¬ reaction_matches (_EmojiCounter._emoji c) reaction →
          observe (Counter.reaction_count r) h2 = Some n)) ∧
  (∀ self counters messages h r,
     counting h counters → NoDup counters → r ∈ counters →
     ∃ c n h',
       h !! r = Some c ∧
       observe (Counter.reaction_count r) h = Some n ∧
       (∀ reaction,
          reaction_matches (_EmojiCounter._emoji c) reaction →
          ∃ h1,
            EmojiRanking.count_reaction self (allowed self) r reaction h
            = Some (tt, h1) ∧
            (reaction_qualifies self reaction →
               observe (Counter.reaction_count r) h1 = Some (n + 1)) ∧
            (¬ reaction_qualifies self reaction →
               observe (Counter.reaction_count r) h1 = Some n)) ∧
       EmojiRanking.count_emojis self counters messages h = Some (counters, h') ∧
       observe (Counter.reaction_count r) h'
       = Some (n + Z.of_nat
                     (length
                        (filter (λ reaction,
                                   reaction_matches (_EmojiCounter._emoji c) reaction ∧
                                   reaction_qualifies self reaction)
                           (messages ≫= Message.reactions))))) ∧
  observe (EmojiRanking._execute (cog _SortOrder.DESCENDING false []) [emoji_A]
             [[reacted_message (human 1) (Reaction.IsEmoji emoji_A)
                 [robot 7; human 8; robot 9]]]) ∅
  = Some [("A"%string, 1, 1, 0, 1)] ∧
  observe (EmojiRanking._execute (cog _SortOrder.DESCENDING false []) [emoji_A]
             [[reacted_message (human 1) (Reaction.IsEmoji emoji_A)
                 [human 7; human 8; human 9]]]) ∅
  = Some [("A"%string, 1, 1, 0, 1)] ∧
  observe (EmojiRanking._execute (cog _SortOrder.DESCENDING false []) [emoji_A]
             [[reacted_message (human 1) (Reaction.IsEmoji emoji_A)
                 [robot 7; robot 9]]]) ∅
  = Some [("A"%string, 1, 0, 0, 0)] ∧
  observe (EmojiRanking._execute (cog _SortOrder.DESCENDING false []) [emoji_A]
             [[reacted_message (human 1) (Reaction.IsEmoji emoji_A)
                 [robot 7; human 8; robot 9];
               reacted_message (human 1) (Reaction.IsEmoji emoji_A)
                 [robot 7; robot 9];
               reacted_message (human 2) (Reaction.IsEmoji emoji_A)
                 [human 8]]]) ∅
  = Some [("A"%string, 1, 2, 0, 2)].
Proof.
  split; [|split; [|by vm_compute]].
  - intros self counters before author content reactions1 reaction reactions2
      after h r Hc Hnd Hr.
    destruct (Hc r Hr) as (c & Hlook & Hkeys).
    destruct (Hkeys _EmojiCountType.MESSAGE_REACTION) as [n Hn].
    assert (tally _EmojiCountType.MESSAGE_REACTION h r = Some n) as Ht.
    { unfold tally. by rewrite Hlook. }
    match goal with
    | |- context [EmojiRanking.count_emojis self counters ?ms1 h
                  = Some (counters, _) ∧
                  EmojiRanking.count_emojis self counters ?ms2 h = _ ∧ _] =>
        destruct (count_emojis_tallies self counters ms1 h r c
                    Hc Hnd Hr Hlook) as (h1 & Hrun1 & _ & Hcount1);
        destruct (count_emojis_tallies self counters ms2 h r c
                    Hc Hnd Hr Hlook) as (h2 & Hrun2 & _ & Hcount2)
    end.
    rewrite Ht in Hcount1, Hcount2. cbn [fmap option_fmap option_map] in *.
    rewrite bind_app, bind_cons, !filter_app, !length_app in Hcount1, Hcount2.
    cbn [Message.reactions] in Hcount1, Hcount2.
    rewrite filter_app, length_app in Hcount1.
    rewrite filter_app, filter_cons, length_app in Hcount2.
    eexists c, _, h1, h2. split; [done|]. split; [done|]. split; [done|].
    rewrite !observe_reaction_tally. split; [exact Hcount1|].
    split; [|split].
    + intros Hm Hq. rewrite Hcount2, decide_True by done.
      cbn [length]. f_equal. lia.
    + intros Hm Hq. rewrite Hcount2, decide_False by (by intros [_ ?]). done.
    + intros Hm. rewrite Hcount2, decide_False by (by intros [? _]). done.
  - intros self counters messages h r Hc Hnd Hr.
    destruct (Hc r Hr) as (c & Hlook & Hkeys).
    destruct (Hkeys _EmojiCountType.MESSAGE_REACTION) as [n Hn].
    assert (tally _EmojiCountType.MESSAGE_REACTION h r = Some n) as Ht.
    { unfold tally. by rewrite Hlook. }
    destruct (count_emojis_tallies self counters messages h r c
                Hc Hnd Hr Hlook) as (h' & Hrun & _ & Hcount).
    exists c, n, h'. split; [done|].
    split; [by rewrite observe_reaction_tally|]. split.
    + intros reaction Hm. eexists. split.
      { apply count_reaction_run. by exists c. }
      split; intros Hq.
      * rewrite decide_True by done.
        rewrite observe_reaction_tally, tally_bump, Ht. simpl.
        by rewrite decide_True.
      * rewrite decide_False by (by intros [_ ?]).
        by rewrite observe_reaction_tally.
    + split; [done|]. by rewrite observe_reaction_tally, Hcount, Ht.
Qed.

Lemma reaction_count_once_per_entry_witness :
  counting store_5531 [0; 1; 2; 3]%nat ∧ NoDup [0; 1; 2; 3]%nat ∧
  (0%nat ∈ [0; 1; 2; 3]%nat) ∧
  (∃ c n h1 h2,
    store_5531 !! 0%nat = Some c ∧
    EmojiRanking.count_emojis (cog _SortOrder.DESCENDING false [])
      [0; 1; 2; 3]%nat
      ([text_message (human 1) "A"]
       ++ {| Message.author := human 1; Message.content := "B";
             Message.reactions :=
               [{| Reaction.emoji := Reaction.IsEmoji emoji_A;
                   Reaction.users := [human 8] |}] ++ [] |}
          :: [text_message (human 3) "C"]) store_5531
    = Some ([0; 1; 2; 3]%nat, h1) ∧
    EmojiRanking.count_emojis (cog _SortOrder.DESCENDING false [])
      [0; 1; 2; 3]%nat
      ([text_message (human 1) "A"]
       ++ {| Message.author := human 1; Message.content := "B";
             Message.reactions :=
               [{| Reaction.emoji := Reaction.IsEmoji emoji_A;
                   Reaction.users := [human 8] |}]
               ++ {| Reaction.emoji := Reaction.IsEmoji emoji_A;
                     Reaction.users := [robot 7; human 8; robot 9] |} :: [] |}
          :: [text_message (human 3) "C"]) store_5531
    = Some ([0; 1; 2; 3]%nat, h2) ∧
    observe (Counter.reaction_count 0%nat) h1 = Some n ∧
    observe (Counter.reaction_count 0%nat) h2 = Some (n + 1)) ∧
  ∃ c n h',
    store_5531 !! 0%nat = Some c ∧
    observe (Counter.reaction_count 0%nat) store_5531 = Some n ∧
    EmojiRanking.count_emojis (cog _SortOrder.DESCENDING false [])
      [0; 1; 2; 3]%nat
      [reacted_message (human 1) (Reaction.IsEmoji emoji_A)
         [robot 7; human 8; robot 9];
       reacted_message (human 2) (Reaction.IsEmoji emoji_A) [human 8]]
      store_5531
    = Some ([0; 1; 2; 3]%nat, h') ∧
    observe (Counter.reaction_count 0%nat) h'
    = Some (n + Z.of_nat
                  (length
                     (filter (λ reaction,
                                reaction_matches (_EmojiCounter._emoji c) reaction ∧
                                reaction_qualifies
                                  (cog _SortOrder.DESCENDING false []) reaction)
                        ([reacted_message (human 1) (Reaction.IsEmoji emoji_A)
                            [robot 7; human 8; robot 9];
                          reacted_message (human 2) (Reaction.IsEmoji emoji_A)
                            [human 8]] ≫= Message.reactions)))).
Proof.
  assert (counting store_5531 [0; 1; 2; 3]%nat) as Hcnt by solve_counting.
  assert (NoDup [0; 1; 2; 3]%nat) as Hnd
    by exact (bool_decide_unpack (NoDup [0; 1; 2; 3]%nat) I).
  assert (0%nat ∈ [0; 1; 2; 3]%nat) as Hin by (by left).
  split; [exact Hcnt|]. split; [exact Hnd|]. split; [exact Hin|]. split.
  - destruct (proj1 reaction_count_once_per_entry
                (cog _SortOrder.DESCENDING false []) [0; 1; 2; 3]%nat
                [text_message (human 1) "A"] (human 1) "B"%string
                [{| Reaction.emoji := Reaction.IsEmoji emoji_A;
                    Reaction.users := [human 8] |}]
                {| Reaction.emoji := Reaction.IsEmoji emoji_A;
                   Reaction.users := [robot 7; human 8; robot 9] |}
                [] [text_message (human 3) "C"]
                store_5531 0%nat Hcnt Hnd Hin)
      as (c & n & h1 & h2 & Hc & Hrun1 & Hrun2 & Hn & Hyes & _ & _).
    exists c, n, h1, h2. split; [exact Hc|]. split; [exact Hrun1|].
    split; [exact Hrun2|]. split; [exact Hn|].
    vm_compute in Hc. injection Hc as <-. apply Hyes.
    + by exists emoji_A.
    + exact (bool_decide_unpack
               (reaction_qualifies (cog _SortOrder.DESCENDING false [])
                  {| Reaction.emoji := Reaction.IsEmoji emoji_A;
                     Reaction.users := [robot 7; human 8; robot 9] |}) I).
  - destruct (proj1 (proj2 reaction_count_once_per_entry)
                (cog _SortOrder.DESCENDING false []) [0; 1; 2; 3]%nat
                [reacted_message (human 1) (Reaction.IsEmoji emoji_A)
                   [robot 7; human 8; robot 9];
                 reacted_message (human 2) (Reaction.IsEmoji emoji_A) [human 8]]
                store_5531 0%nat Hcnt Hnd Hin)
      as (c & n & h' & Hc & Hn & _ & Hrun & Hcount).
    by exists c, n, h'.
Defined.

(** ** The invariant of the tallies *)

Lemma init_counts emoji ty :
  _EmojiCounter._counts (_EmojiCounter.__init__ emoji) !! ty = Some 0.
Proof. by destruct ty. Qed.

(** Building the counters of a guild: one new object for each emoji, both
    tallies at 0, the objects that were there before left alone. *)
Lemma new_counters_run emojis : ∀ h : gmap nat _EmojiCounter.t,
  ∃ counters h0,
    EmojiRanking.new_counters emojis h = Some (counters, h0) ∧
    NoDup counters ∧
    (∀ r, r ∈ counters → h !! r = None) ∧
    (∀ r, is_Some (h !! r) → h0 !! r = h !! r) ∧
    Forall2 (λ r emoji, h0 !! r = Some (_EmojiCounter.__init__ emoji))
      counters emojis.
Proof.
  unfold EmojiRanking.new_counters.
  induction emojis as [|e es IH]; intros h.
  - exists [], h. split; [done|]. split; [constructor|].
    split; [by intros r ?%elem_of_nil|]. split; [done|constructor].
  - pose (r := fresh (dom h)).
    assert (h !! r = None) as Hfresh.
    { apply not_elem_of_dom. apply is_fresh. }
    destruct (IH (<[r := _EmojiCounter.__init__ e]> h))
      as (rs & h0 & Hrun & Hnd & Hnew & Hold & Hinit).
    exists (r :: rs), h0. split.
    { cbn [map_m]. erewrite bind_run; [|reflexivity].
      fold r. by erewrite bind_run; [|exact Hrun]. }
    assert (r ∉ rs) as Hr.
    { intros Hin. specialize (Hnew r Hin). by rewrite lookup_insert_eq in Hnew. }
    split; [by constructor|]. split.
    { intros r' [->|Hr']%elem_of_cons; [done|].
      specialize (Hnew r' Hr').
      apply lookup_insert_None in Hnew. by destruct Hnew. }
    split.
    { intros r' Hr'. rewrite Hold.
      - apply lookup_insert_ne. intros <-. rewrite Hfresh in Hr'. by destruct Hr'.
      - rewrite lookup_insert_ne; [done|].
        intros <-. rewrite Hfresh in Hr'. by destruct Hr'. }
    constructor; [|done].
    rewrite Hold by (by rewrite lookup_insert_eq). apply lookup_insert_eq.
Qed.

Lemma tally_nonneg ty r ops h n n' :
  tally ty h r = Some n → tally ty (apply_ops ops h) r = Some n' → n ≤ n'.
Proof.
  intros Hn. rewrite tally_apply_ops, Hn. simpl. intros [= <-]. lia.
Qed.

Lemma counting_total h refs r :
  counting h refs → r ∈ refs →
  ∃ text reaction,
    observe (Counter.content_count r) h = Some text ∧
    observe (Counter.reaction_count r) h = Some reaction ∧
    observe (Counter.total_count r) h = Some (text + reaction).
Proof.
  intros Hc Hr. destruct (Hc r Hr) as (c & Hlook & Hkeys).
  destruct (Hkeys _EmojiCountType.MESSAGE_CONTENT) as [a Ha].
  destruct (Hkeys _EmojiCountType.MESSAGE_REACTION) as [b Hb].
  exists a, b.
  rewrite observe_content_count, observe_reaction_count, observe_total_count, Hlook.
  simpl. by rewrite (sum_values_both _ _ _ Ha Hb).
Qed.

(** C8: start from the counters [_execute] builds for any list of emojis and
    run any sequence of counting passes, and then any further sequence.
    After each, every counter has a content count and a reaction count that
    are not negative and whose sum is its total count; the counts after the
    further passes are not smaller than before; and one more [increment]
    adds exactly 1 to the tally it names and leaves the other as it is. *)
Theorem tallies_invariant self emojis batches1 batches2 h :
  ∃ counters h0 h1 h2,
    EmojiRanking.new_counters emojis h = Some (counters, h0) ∧
    EmojiRanking.count_channels self counters batches1 h0 = Some (counters, h1) ∧
    EmojiRanking.count_channels self counters batches2 h1 = Some (counters, h2) ∧
    Forall (λ r,
      ∃ text1 reaction1 text2 reaction2,
        observe (Counter.content_count r) h1 = Some text1 ∧
        observe (Counter.reaction_count r) h1 = Some reaction1 ∧
        observe (Counter.total_count r) h1 = Some (text1 + reaction1) ∧
        observe (Counter.content_count r) h2 = Some text2 ∧
        observe (Counter.reaction_count r) h2 = Some reaction2 ∧
        observe (Counter.total_count r) h2 = Some (text2 + reaction2) ∧
        0 ≤ text1 ≤ text2 ∧ 0 ≤ reaction1 ≤ reaction2 ∧
        ∃ h3 h4,
          Counter.increment r _EmojiCountType.MESSAGE_CONTENT h2 = Some (tt, h3) ∧
          observe (Counter.content_count r) h3 = Some (text2 + 1) ∧
          observe (Counter.reaction_count r) h3 = Some reaction2 ∧
          observe (Counter.total_count r) h3 = Some (text2 + 1 + reaction2) ∧
          Counter.increment r _EmojiCountType.MESSAGE_REACTION h2 = Some (tt, h4) ∧
          observe (Counter.content_count r) h4 = Some text2 ∧
          observe (Counter.reaction_count r) h4 = Some (reaction2 + 1) ∧
          observe (Counter.total_count r) h4 = Some (text2 + (reaction2 + 1)))
      counters.
Proof.
  destruct (new_counters_run emojis h) as (counters & h0 & Hnew & _ & _ & _ & Hinit).
  assert (∀ r, r ∈ counters → ∃ e, h0 !! r = Some (_EmojiCounter.__init__ e)) as H0.
  { intros r Hr. apply list_elem_of_lookup in Hr as [i Hi].
    destruct (Forall2_lookup_l _ _ _ _ _ Hinit Hi) as (e & _ & He). by exists e. }
  assert (counting h0 counters) as Hc0.
  { intros r Hr. destruct (H0 r Hr) as [e He].
    exists (_EmojiCounter.__init__ e). split; [done|].
    intros ty. by rewrite (init_counts e ty). }
  pose proof (count_channels_run self counters batches1 h0 Hc0) as Hrun1.
  set (h1 := apply_ops _ h0) in Hrun1.
  assert (counting h1 counters) as Hc1 by (by apply apply_ops_counting).
  pose proof (count_channels_run self counters batches2 h1 Hc1) as Hrun2.
  set (h2 := apply_ops _ h1) in Hrun2.
  assert (counting h2 counters) as Hc2 by (by apply apply_ops_counting).
  exists counters, h0, h1, h2. split; [done|]. split; [done|]. split; [done|].
  apply Forall_forall. intros r Hr.
  destruct (counting_total h1 counters r Hc1 Hr) as (t1 & r1 & Ht1 & Hr1 & Htot1).
  destruct (counting_total h2 counters r Hc2 Hr) as (t2 & r2 & Ht2 & Hr2 & Htot2).
  exists t1, r1, t2, r2. do 6 (split; [done|]).
  destruct (H0 r Hr) as [e He].
  assert (∀ ty, tally ty h0 r = Some 0) as Hz.
  { intros ty. unfold tally. rewrite He. exact (init_counts e ty). }
  rewrite observe_content_tally in Ht1, Ht2.
  rewrite observe_reaction_tally in Hr1, Hr2.
  pose proof (tally_nonneg _ _ _ _ _ _ (Hz _) Ht1).
  pose proof (tally_nonneg _ _ _ _ _ _ (Hz _) Hr1).
  pose proof (tally_nonneg _ _ _ _ _ _ Ht1 Ht2).
  pose proof (tally_nonneg _ _ _ _ _ _ Hr1 Hr2).
  split; [done|]. split; [done|].
  destruct (Hc2 r Hr) as (c & Hlook & Hkeys).
  exists (bump (r, _EmojiCountType.MESSAGE_CONTENT) h2),
         (bump (r, _EmojiCountType.MESSAGE_REACTION) h2).
  assert (∀ op, fst op = r →
    ∃ a b, tally _EmojiCountType.MESSAGE_CONTENT (bump op h2) r = Some a ∧
           tally _EmojiCountType.MESSAGE_REACTION (bump op h2) r = Some b ∧
           observe (Counter.total_count r) (bump op h2) = Some (a + b)) as Hsum.
  { intros op Hop.
    destruct (counting_total (bump op h2) counters r
                (bump_counting _ _ _ Hc2) Hr) as (a & b & Ha & Hb & Hab).
    exists a, b. by rewrite <- observe_content_tally, <- observe_reaction_tally. }
  split; [by eapply increment_bump|].
  destruct (Hsum (r, _EmojiCountType.MESSAGE_CONTENT) eq_refl) as (a & b & Ha & Hb & Hab).
  rewrite tally_bump, Ht2 in Ha. rewrite tally_bump, Hr2 in Hb.
  simpl in Ha, Hb. rewrite decide_True in Ha by done.
  rewrite decide_False in Hb by done.
  injection Ha as <-. injection Hb as <-.
  rewrite observe_content_tally, observe_reaction_tally, !tally_bump, Ht2, Hr2.
  simpl. rewrite decide_True by done. rewrite decide_False by done.
  split; [done|]. split; [done|]. split; [done|].
  split; [by eapply increment_bump|].
  destruct (Hsum (r, _EmojiCountType.MESSAGE_REACTION) eq_refl) as (a & b & Ha & Hb & Hab').
  rewrite tally_bump, Ht2 in Ha. rewrite tally_bump, Hr2 in Hb.
  simpl in Ha, Hb. rewrite decide_False in Ha by done.
  rewrite decide_True in Hb by done.
  injection Ha as <-. injection Hb as <-.
  rewrite observe_content_tally, observe_reaction_tally, !tally_bump, Ht2, Hr2.
  simpl. rewrite decide_False by done. rewrite decide_True by done.
  done.
Qed.

(** ** A guild without emojis *)

(** C9: ranking an empty list of counters returns the empty list and does
    not raise, whatever the order and the limit; this includes the limit
    [_execute] computes for a guild without emojis, which is 1, and
    [_execute] as a whole then yields no field, whatever the messages. *)
Theorem sort_ranking_empty_catalog self slice_num h :
  EmojiRanking.sort_ranking self [] slice_num h = Some ([], h) ∧
  EmojiRanking.clamp_rank self [] = 1 ∧
  EmojiRanking.sort_ranking self [] (EmojiRanking.clamp_rank self []) h
  = Some ([], h) ∧
  ∀ histories, observe (EmojiRanking._execute self [] histories) h = Some [].
Proof.
  assert (∀ n h', EmojiRanking.sort_ranking self [] n h' = Some ([], h')) as Hrun.
  { intros n h'. unfold EmojiRanking.sort_ranking, bind. simpl.
    destruct (_SortOrder.reverse _); unfold slice_to; simpl;
      case_decide; by rewrite take_nil. }
  split; [apply Hrun|]. split; [unfold EmojiRanking.clamp_rank; simpl; lia|].
  split; [apply Hrun|].
  intros histories. unfold observe, EmojiRanking._execute.
  erewrite bind_run; [|reflexivity].
  erewrite bind_run; [|apply count_channels_run; by intros r ?%elem_of_nil].
  unfold EmojiRanking.fields. by erewrite bind_run; [|apply Hrun].
Qed.

(** * Further properties of the code *)

(** ** The ranks [sort_ranking] gives *)

Lemma filter_ext_in {A} (P Q : A → Prop)
    `{!∀ x, Decision (P x), !∀ x, Decision (Q x)} (l : list A) :
  (∀ x, x ∈ l → P x ↔ Q x) → filter P l = filter Q l.
Proof.
  induction l as [|x l IH]; intros Hl; [done|].
  rewrite !filter_cons, IH by (intros y Hy; apply Hl; by right).
  destruct (Hl x ltac:(by left)). by repeat case_decide; try tauto.
Qed.

Lemma filter_all {A} (P : A → Prop) `{!∀ x, Decision (P x)} (l : list A) :
  (∀ x, x ∈ l → P x) → filter P l = l.
Proof.
  induction l as [|x l IH]; intros Hl; [done|].
  rewrite filter_cons_True by (apply Hl; by left).
  f_equal. apply IH. intros y Hy. apply Hl. by right.
Qed.

(** The rank at a position is 1 more than the number of earlier entries with
    another key. *)
Lemma expected_rank_count (K : nat → Z) s :
  contiguous_keys K s → ∀ i r, s !! i = Some r →
  expected_rank K s i
  = 1 + Z.of_nat (length (filter (λ p, K p ≠ K r) (take i s))).
Proof.
  intros Hcontig. induction i as [|j IH]; intros r Hr.
  - by rewrite take_0.
  - destruct (lookup_lt_is_Some_2 s j) as [p Hp].
    { apply lookup_lt_Some in Hr. lia. }
    cbn [expected_rank]. rewrite Hp, Hr, (take_S_r _ _ _ Hp), filter_app, length_app.
    destruct (decide (K p = K r)) as [Heq|Hne].
    + rewrite (IH p Hp), Heq, (filter_cons_False _ p) by tauto. simpl. lia.
    + rewrite (filter_cons_True _ p) by done. rewrite filter_all.
      * rewrite length_take_le by (apply lookup_lt_Some in Hp; lia). simpl. lia.
      * intros q [k [Hk Hkj]]%elem_of_take Hq. apply Hne.
        rewrite <- Hq. apply (Hcontig k j (S j) q r p); [lia|done..].
Qed.

Lemma expected_rank_bounds (K : nat → Z) s i r :
  contiguous_keys K s → s !! i = Some r →
  1 ≤ expected_rank K s i ≤ Z.of_nat i + 1.
Proof.
  intros Hcontig Hr. rewrite (expected_rank_count K s Hcontig i r Hr).
  pose proof (length_filter (λ p, K p ≠ K r) (take i s)) as Hlen.
  rewrite length_take in Hlen. lia.
Qed.

Lemma expected_rank_same (K : nat → Z) s i j x y :
  contiguous_keys K s → (i ≤ j)%nat → s !! i = Some x → s !! j = Some y →
  K x = K y → expected_rank K s j = expected_rank K s i.
Proof.
  intros Hcontig. revert y. induction j as [|m IH]; intros y Hij Hi Hj Hxy.
  - by replace i with 0%nat by lia.
  - destruct (decide (i = S m)) as [->|Hne]; [done|].
    destruct (lookup_lt_is_Some_2 s m) as [z Hz].
    { apply lookup_lt_Some in Hj. lia. }
    assert (K z = K x) as Hzx.
    { apply (Hcontig i m (S m) x y z); [lia|done..]. }
    cbn [expected_rank]. rewrite Hz, Hj, decide_True by congruence.
    apply (IH z); [lia|done|done|congruence].
Qed.

Lemma expected_rank_lt (K : nat → Z) s i j x y :
  contiguous_keys K s → (i < j)%nat → s !! i = Some x → s !! j = Some y →
  K x ≠ K y → expected_rank K s i < expected_rank K s j.
Proof.
  intros Hcontig Hij Hi Hj Hxy.
  pose proof (expected_rank_bounds K s i x Hcontig Hi) as Hbi.
  rewrite (expected_rank_count K s Hcontig j y Hj).
  assert (S i ≤ length (filter (λ p, K p ≠ K y) (take j s)))%nat; [|lia].
  rewrite <- (take_drop (S i) (take j s)), filter_app, length_app.
  rewrite take_take, Nat.min_l by lia.
  rewrite filter_all.
  - rewrite length_take_le by (apply lookup_lt_Some in Hj; lia). lia.
  - intros q [k [Hk Hki]]%elem_of_take Hq. apply Hxy.
    rewrite <- Hq. apply (Hcontig k i j q y x); [lia|done..].
Qed.

(** What a run of [sort_ranking] leaves: the list it returns, and for each
    entry its rank and its total in the final store. *)
Lemma sort_ranking_ranks self counters slice_num h :
  allocated h counters →
  ∃ out h',
    EmojiRanking.sort_ranking self counters slice_num h = Some (out, h') ∧
    out = slice_to (sorted (key_in h)
                      (_SortOrder.reverse (EmojiRanking._order self)) counters)
            slice_num ∧
    contiguous_keys (key_in h) out ∧
    (∀ r, key_in h' r = key_in h r) ∧
    (∀ i r, out !! i = Some r →
       observe (Counter.rank r) h' = Some (expected_rank (key_in h) out i) ∧
       observe (Counter.total_count r) h' = Some (key_in h r)).
Proof.
  intros Hall.
  destruct (sort_ranking_run self counters slice_num h Hall) as (h' & Hrun & Hinv).
  eexists _, h'. split; [exact Hrun|]. split; [done|].
  pose proof Hinv as (Hsame & _ & Hrank). split_and!.
  - destruct (slice_to_take (sorted (key_in h)
      (_SortOrder.reverse (EmojiRanking._order self)) counters) slice_num)
      as [n ->].
    apply contiguous_take, contiguous_sorted.
  - intros r. unfold key_in.
    by destruct (same_fields_observe h h' r (Hsame r)) as (_ & _ & -> & _).
  - intros i r Hr. split.
    + rewrite observe_rank. apply Hrank; [|done]. by apply lookup_lt_Some in Hr.
    + destruct (rank_inv_key h _ (allocated_sorted _ _ _ _ Hall) _ h' r Hinv)
        as (c & Hc & Hk).
      { by eapply list_elem_of_lookup_2. }
      by rewrite observe_total_count, Hc, <- Hk.
Qed.

Lemma sorted_slice_lookup (K : nat → Z) rv l stop i j x y :
  (i ≤ j)%nat →
  slice_to (sorted K rv l) stop !! i = Some x →
  slice_to (sorted K rv l) stop !! j = Some y →
  if rv then K y ≤ K x else K x ≤ K y.
Proof.
  destruct (slice_to_take (sorted K rv l) stop) as [n ->].
  intros Hij [Hi _]%lookup_take_Some [Hj _]%lookup_take_Some.
  destruct (decide (i = j)) as [->|Hne].
  { simplify_eq. destruct rv; lia. }
  destruct rv.
  - apply (StronglySorted_lookup _ _ i j x y (sorted_descending K l));
      [lia|done..].
  - apply (StronglySorted_lookup _ _ i j x y (sorted_ascending K l));
      [lia|done..].
Qed.

(** The number of entries that beat the entry at position [i], for a
    relation [beats] that holds of no later entry and of exactly the earlier
    entries with another key. *)
Lemma count_beating (K : nat → Z) (beats : nat → Prop)
    `{!∀ p, Decision (beats p)} s i r :
  s !! i = Some r →
  (∀ k p, (k < i)%nat → s !! k = Some p → beats p ↔ K p ≠ K r) →
  (∀ k p, (i ≤ k)%nat → s !! k = Some p → ¬ beats p) →
  filter beats s = filter (λ p, K p ≠ K r) (take i s).
Proof.
  intros Hr Hbefore Hafter.
  rewrite <- (take_drop i s) at 1. rewrite filter_app.
  rewrite (filter_none beats (drop i s)), app_nil_r.
  - apply filter_ext_in. intros p [k [Hk Hki]]%elem_of_take. by apply (Hbefore k).
  - intros p [k Hk]%list_elem_of_lookup. rewrite lookup_drop in Hk.
    apply (Hafter (i + k)%nat); [lia|done].
Qed.

(** X1: the rank of a returned entry is 1 plus the number of returned entries
    with a strictly larger total for [DESCENDING], and with a strictly smaller
    total for any other order (standard competition ranking). *)
Theorem competition_ranking self counters slice_num h :
  allocated h counters →
  ∃ out h',
    EmojiRanking.sort_ranking self counters slice_num h = Some (out, h') ∧
    ∀ i r, out !! i = Some r →
      (EmojiRanking._order self = _SortOrder.DESCENDING →
         observe (Counter.rank r) h'
         = Some (1 + Z.of_nat
                       (length (filter (λ p, key_in h' r < key_in h' p) out)))) ∧
      (EmojiRanking._order self ≠ _SortOrder.DESCENDING →
         observe (Counter.rank r) h'
         = Some (1 + Z.of_nat
                       (length (filter (λ p, key_in h' p < key_in h' r) out)))).
Proof.
  intros Hall.
  destruct (sort_ranking_ranks self counters slice_num h Hall)
    as (out & h' & Hrun & Hout & Hcontig & Hkey & Hobs).
  exists out, h'. split; [done|]. intros i r Hr.
  destruct (Hobs i r Hr) as [-> _].
  rewrite (expected_rank_count _ _ Hcontig i r Hr).
  assert (∀ a b x y, (a ≤ b)%nat → out !! a = Some x → out !! b = Some y →
    if _SortOrder.reverse (EmojiRanking._order self)
    then key_in h y ≤ key_in h x else key_in h x ≤ key_in h y) as Hsorted.
  { intros a b x y Hab Hx Hy. rewrite Hout in Hx, Hy.
    by apply (sorted_slice_lookup _ _ counters slice_num a b). }
  unfold _SortOrder.reverse in Hsorted.
  split; intros Hord; do 4 f_equal; symmetry;
    apply (count_beating (key_in h)); try done.
  - intros k p Hki Hp. rewrite !Hkey.
    pose proof (Hsorted k i p r ltac:(lia) Hp Hr) as Hle.
    rewrite decide_True in Hle by done. lia.
  - intros k p Hik Hp. rewrite !Hkey.
    pose proof (Hsorted i k r p Hik Hr Hp) as Hle.
    rewrite decide_True in Hle by done. lia.
  - intros k p Hki Hp. rewrite !Hkey.
    pose proof (Hsorted k i p r ltac:(lia) Hp Hr) as Hle.
    rewrite decide_False in Hle by done. lia.
  - intros k p Hik Hp. rewrite !Hkey.
    pose proof (Hsorted i k r p Hik Hr Hp) as Hle.
    rewrite decide_False in Hle by done. lia.
Qed.

Lemma competition_ranking_witness :
  allocated store_5531 [0; 1; 2; 3]%nat ∧
  ∃ out h',
    EmojiRanking.sort_ranking (cog _SortOrder.DESCENDING false [])
      [0; 1; 2; 3]%nat 4 store_5531 = Some (out, h') ∧
    out !! 2%nat = Some 2%nat ∧
    observe (Counter.rank 2%nat) h'
    = Some (1 + Z.of_nat
                  (length (filter (λ p, key_in h' 2%nat < key_in h' p) out))).
Proof.
  assert (allocated store_5531 [0; 1; 2; 3]%nat) as Hall by solve_allocated.
  split; [exact Hall|].
  destruct (competition_ranking (cog _SortOrder.DESCENDING false [])
              [0; 1; 2; 3]%nat 4 store_5531 Hall) as (out & h' & Hrun & Hrank).
  assert (out !! 2%nat = Some 2%nat) as Hout.
  { vm_compute in Hrun. injection Hrun as <- _. reflexivity. }
  exists out, h'. split; [exact Hrun|]. split; [exact Hout|].
  exact (proj1 (Hrank 2%nat 2%nat Hout) eq_refl).
Defined.

(** X2: two entries of the returned list have the same rank exactly when
    they have the same total. *)
Theorem ties_share_rank self counters slice_num h :
  allocated h counters →
  ∃ out h',
    EmojiRanking.sort_ranking self counters slice_num h = Some (out, h') ∧
    ∀ i j p r, out !! i = Some p → out !! j = Some r →
      ∃ rank_p rank_r total_p total_r,
        observe (Counter.rank p) h' = Some rank_p ∧
        observe (Counter.rank r) h' = Some rank_r ∧
        observe (Counter.total_count p) h' = Some total_p ∧
        observe (Counter.total_count r) h' = Some total_r ∧
        (rank_p = rank_r ↔ total_p = total_r).
Proof.
  intros Hall.
  destruct (sort_ranking_ranks self counters slice_num h Hall)
    as (out & h' & Hrun & Hout & Hcontig & Hkey & Hobs).
  exists out, h'. split; [done|]. intros i j p r Hp Hr.
  destruct (Hobs i p Hp) as [Hrp Htp]. destruct (Hobs j r Hr) as [Hrr Htr].
  eexists _, _, _, _. do 4 (split; [done|]).
  assert (∀ a b x y, (a ≤ b)%nat → out !! a = Some x → out !! b = Some y →
    expected_rank (key_in h) out a = expected_rank (key_in h) out b
    ↔ key_in h x = key_in h y) as Hle.
  { intros a b x y Hab Hx Hy. split.
    - intros Heq. destruct (decide (key_in h x = key_in h y)) as [|Hne]; [done|].
      assert (a ≠ b) by (intros ->; by simplify_eq).
      pose proof (expected_rank_lt _ _ a b x y Hcontig ltac:(lia) Hx Hy Hne). lia.
    - intros Heq. symmetry. by apply (expected_rank_same _ _ a b x y). }
  destruct (decide (i ≤ j)%nat).
  - by apply Hle.
  - split; intros Heq; symmetry; apply (Hle j i r p); done || lia.
Qed.

Lemma ties_share_rank_witness :
  allocated store_5531 [0; 1; 2; 3]%nat ∧
  ∃ out h',
    EmojiRanking.sort_ranking (cog _SortOrder.DESCENDING false [])
      [0; 1; 2; 3]%nat 4 store_5531 = Some (out, h') ∧
    ∀ i j p r, out !! i = Some p → out !! j = Some r →
      ∃ rank_p rank_r total_p total_r,
        observe (Counter.rank p) h' = Some rank_p ∧
        observe (Counter.rank r) h' = Some rank_r ∧
        observe (Counter.total_count p) h' = Some total_p ∧
        observe (Counter.total_count r) h' = Some total_r ∧
        (rank_p = rank_r ↔ total_p = total_r).
Proof.
  assert (allocated store_5531 [0; 1; 2; 3]%nat) as Hall by solve_allocated.
  split; [exact Hall|].
  exact (ties_share_rank (cog _SortOrder.DESCENDING false [])
           [0; 1; 2; 3]%nat 4 store_5531 Hall).
Defined.

(** X3: along the returned list the ranks start at 1, never decrease, and
    never exceed the position counted from 1. *)
Theorem ranks_bounded_monotone self counters slice_num h :
  allocated h counters →
  ∃ out h',
    EmojiRanking.sort_ranking self counters slice_num h = Some (out, h') ∧
    ∀ i j p r, (i ≤ j)%nat → out !! i = Some p → out !! j = Some r →
      ∃ rank_p rank_r,
        observe (Counter.rank p) h' = Some rank_p ∧
        observe (Counter.rank r) h' = Some rank_r ∧
        1 ≤ rank_p ≤ rank_r ∧ rank_r ≤ Z.of_nat j + 1 ∧
        rank_r ≤ Z.of_nat (length out).
Proof.
  intros Hall.
  destruct (sort_ranking_ranks self counters slice_num h Hall)
    as (out & h' & Hrun & Hout & Hcontig & Hkey & Hobs).
  exists out, h'. split; [done|]. intros i j p r Hij Hp Hr.
  destruct (Hobs i p Hp) as [Hrp _]. destruct (Hobs j r Hr) as [Hrr _].
  eexists _, _. do 2 (split; [done|]).
  pose proof (expected_rank_bounds _ _ i p Hcontig Hp).
  pose proof (expected_rank_bounds _ _ j r Hcontig Hr).
  pose proof (lookup_lt_Some _ _ _ Hr).
  split; [|lia]. split; [lia|].
  destruct (decide (key_in h p = key_in h r)) as [Heq|Hne].
  - by rewrite (expected_rank_same _ _ i j p r Hcontig Hij Hp Hr Heq).
  - assert (i ≠ j) by (intros ->; by simplify_eq).
    pose proof (expected_rank_lt _ _ i j p r Hcontig ltac:(lia) Hp Hr Hne). lia.
Qed.

Lemma ranks_bounded_monotone_witness :
  allocated store_5531 [0; 1; 2; 3]%nat ∧
  ∃ out h',
    EmojiRanking.sort_ranking (cog _SortOrder.ASCENDING false [])
      [0; 1; 2; 3]%nat 3 store_5531 = Some (out, h') ∧
    ∀ i j p r, (i ≤ j)%nat → out !! i = Some p → out !! j = Some r →
      ∃ rank_p rank_r,
        observe (Counter.rank p) h' = Some rank_p ∧
        observe (Counter.rank r) h' = Some rank_r ∧
        1 ≤ rank_p ≤ rank_r ∧ rank_r ≤ Z.of_nat j + 1 ∧
        rank_r ≤ Z.of_nat (length out).
Proof.
  assert (allocated store_5531 [0; 1; 2; 3]%nat) as Hall by solve_allocated.
  split; [exact Hall|].
  exact (ranks_bounded_monotone (cog _SortOrder.ASCENDING false [])
           [0; 1; 2; 3]%nat 3 store_5531 Hall).
Defined.

Lemma sorted_ext {A} (K K' : A → Z) rv l :
  (∀ x, K x = K' x) → sorted K rv l = sorted K' rv l.
Proof.
  intros Hext.
  assert (∀ x l', insert_by K x l' = insert_by K' x l') as Hins.
  { intros x l'. induction l' as [|y l' IH]; simpl; [done|].
    rewrite !Hext, IH. done. }
  assert (∀ l', stable_sort K l' = stable_sort K' l') as Hsort.
  { intros l'. induction l' as [|x l' IH]; simpl; [done|]. by rewrite IH, Hins. }
  unfold sorted. by rewrite !Hsort.
Qed.

Lemma expected_rank_ext (K K' : nat → Z) s i :
  (∀ x, K x = K' x) → expected_rank K s i = expected_rank K' s i.
Proof.
  intros Hext. induction i as [|j IH]; [done|].
  cbn [expected_rank]. destruct (s !! j), (s !! S j); try done.
  by rewrite !Hext, IH.
Qed.

Lemma allocated_after_ranking h0 s n h refs :
  rank_inv h0 s n h → allocated h0 refs → allocated h refs.
Proof.
  intros (Hsame & _ & _) Hall r Hr. destruct (Hall r Hr) as [c0 Hc0].
  specialize (Hsame r). rewrite Hc0 in Hsame.
  destruct (h !! r); [by eexists|done].
Qed.

(** X4: ranking a second time changes nothing: the same list is returned and
    the store stays as the first ranking left it. *)
Theorem sort_ranking_idempotent self counters slice_num h :
  allocated h counters →
  ∃ out h',
    EmojiRanking.sort_ranking self counters slice_num h = Some (out, h') ∧
    EmojiRanking.sort_ranking self counters slice_num h' = Some (out, h').
Proof.
  intros Hall.
  destruct (sort_ranking_run self counters slice_num h Hall) as (h' & Hrun & Hinv).
  assert (allocated h' counters) as Hall'
    by (by eapply allocated_after_ranking).
  destruct (sort_ranking_run self counters slice_num h' Hall')
    as (h'' & Hrun' & Hinv').
  assert (∀ r, key_in h' r = key_in h r) as Hkey.
  { intros r. unfold key_in. destruct Hinv as (Hsame & _ & _).
    by destruct (same_fields_observe h h' r (Hsame r)) as (_ & _ & -> & _). }
  rewrite (sorted_ext _ _ _ _ Hkey) in Hrun', Hinv'.
  set (out := slice_to _ _) in *.
  exists out, h'. split; [done|]. rewrite Hrun'. do 2 f_equal.
  destruct Hinv as (_ & _ & Hrank).
  destruct Hinv' as (Hsame' & Hframe' & Hrank'). rewrite firstn_all in Hframe'.
  apply map_eq. intros r.
  destruct (decide (r ∈ out)) as [[i Hi]%list_elem_of_lookup|Hout];
    [|by apply Hframe'].
  pose proof (lookup_lt_Some _ _ _ Hi) as Hlt.
  specialize (Hrank i r Hlt Hi). specialize (Hrank' i r Hlt Hi).
  rewrite (expected_rank_ext _ _ _ _ Hkey) in Hrank'.
  specialize (Hsame' r).
  destruct (h'' !! r) as [[e'' k'' c'']|], (h' !! r) as [[e' k' c']|];
    simplify_eq/=; done.
Qed.

Lemma sort_ranking_idempotent_witness :
  allocated store_5531 [0; 1; 2; 3]%nat ∧
  ∃ out h',
    EmojiRanking.sort_ranking (cog _SortOrder.DESCENDING false [])
      [0; 1; 2; 3]%nat 3 store_5531 = Some (out, h') ∧
    EmojiRanking.sort_ranking (cog _SortOrder.DESCENDING false [])
      [0; 1; 2; 3]%nat 3 h' = Some (out, h').
Proof.
  assert (allocated store_5531 [0; 1; 2; 3]%nat) as Hall by solve_allocated.
  split; [exact Hall|].
  exact (sort_ranking_idempotent (cog _SortOrder.DESCENDING false [])
           [0; 1; 2; 3]%nat 3 store_5531 Hall).
Defined.

(** ** What a counting pass leaves alone *)

Lemma apply_ops_rank ops : ∀ h r,
  _EmojiCounter._rank <$> apply_ops ops h !! r = _EmojiCounter._rank <$> h !! r.
Proof.
  induction ops as [|op ops IH]; intros h r; [done|].
  cbn [apply_ops foldl]. fold (apply_ops ops (bump op h)).
  rewrite IH, lookup_bump. case_decide; [|done]. by destruct (h !! r).
Qed.

Lemma apply_ops_is_Some ops : ∀ h r,
  is_Some (apply_ops ops h !! r) ↔ is_Some (h !! r).
Proof.
  induction ops as [|op ops IH]; intros h r; [done|].
  cbn [apply_ops foldl]. fold (apply_ops ops (bump op h)).
  rewrite IH, lookup_bump. case_decide; [|done]. by rewrite fmap_is_Some.
Qed.

Lemma apply_ops_other ops : ∀ h r,
  (∀ op, op ∈ ops → fst op ≠ r) → apply_ops ops h !! r = h !! r.
Proof.
  induction ops as [|op ops IH]; intros h r Hops; [done|].
  cbn [apply_ops foldl]. fold (apply_ops ops (bump op h)).
  rewrite IH by (intros op' Hop'; apply Hops; by right).
  rewrite lookup_bump, decide_False; [done|]. apply Hops. by left.
Qed.

Lemma pass_ops_fst self h counters messages op :
  op ∈ pass_ops self h counters messages → fst op ∈ counters.
Proof.
  unfold pass_ops, message_ops.
  intros (m & Hop & _)%list_elem_of_bind.
  apply list_elem_of_bind in Hop as (r & Hop & Hr).
  by rewrite (counter_ops_fst _ _ _ _ _ Hop).
Qed.

(** X5: a counting pass writes tallies only: it creates and removes no
    counter, leaves every rank and every emoji as it was, changes no counter
    outside the list it was given, and lowers no tally. *)
Theorem count_emojis_frame self counters messages h :
  counting h counters →
  ∃ h',
    EmojiRanking.count_emojis self counters messages h = Some (counters, h') ∧
    dom h' = dom h ∧
    (∀ r, observe (Counter.rank r) h' = observe (Counter.rank r) h ∧
          observe (Counter.emoji r) h' = observe (Counter.emoji r) h) ∧
    (∀ r, r ∉ counters → h' !! r = h !! r) ∧
    (∀ r n, observe (Counter.content_count r) h = Some n →
       ∃ n', observe (Counter.content_count r) h' = Some n' ∧ n ≤ n') ∧
    (∀ r n, observe (Counter.reaction_count r) h = Some n →
       ∃ n', observe (Counter.reaction_count r) h' = Some n' ∧ n ≤ n').
Proof.
  intros Hc. eexists. split; [by apply count_emojis_run|]. split_and!.
  - apply set_eq. intros r. rewrite !elem_of_dom. apply apply_ops_is_Some.
  - intros r. by rewrite !observe_rank, !observe_emoji, apply_ops_emoji,
      apply_ops_rank.
  - intros r Hr. apply apply_ops_other. intros op Hop <-.
    by apply Hr, (pass_ops_fst self h counters messages).
  - intros r n. rewrite !observe_content_tally, tally_apply_ops. intros ->.
    eexists. split; [done|]. lia.
  - intros r n. rewrite !observe_reaction_tally, tally_apply_ops. intros ->.
    eexists. split; [done|]. lia.
Qed.

Lemma count_emojis_frame_witness :
  counting store_5531 [0; 1]%nat ∧
  ∃ h',
    EmojiRanking.count_emojis (cog _SortOrder.DESCENDING false []) [0; 1]%nat
      [text_message (human 1) "A B C"] store_5531 = Some ([0; 1]%nat, h') ∧
    dom h' = dom store_5531 ∧
    h' !! 2%nat = store_5531 !! 2%nat ∧
    observe (Counter.content_count 0%nat) h' = Some 4.
Proof.
  assert (counting store_5531 [0; 1]%nat) as Hcnt by solve_counting.
  split; [exact Hcnt|].
  destruct (count_emojis_frame (cog _SortOrder.DESCENDING false []) [0; 1]%nat
              [text_message (human 1) "A B C"] store_5531 Hcnt)
    as (h' & Hrun & Hdom & _ & Hother & _).
  assert (2%nat ∉ [0; 1]%nat) as Hout.
  { intros Hin. repeat (apply elem_of_cons in Hin as [Hin|Hin]; [discriminate|]).
    by apply elem_of_nil in Hin. }
  exists h'. split; [exact Hrun|]. split; [exact Hdom|].
  split; [exact (Hother 2%nat Hout)|].
  vm_compute in Hrun. injection Hrun as <-. reflexivity.
Defined.

Lemma bind_nil_all {A B} (f : A → list B) (l : list A) :
  (∀ x, x ∈ l → f x = []) → l ≫= f = [].
Proof.
  induction l as [|x l IH]; intros Hl; [done|].
  rewrite bind_cons, (Hl x) by (by left). apply IH.
  intros y Hy. apply Hl. by right.
Qed.

(** X6: reactions that are no custom emoji of the catalog are counted for no
    one: when no reaction of the messages is a [discord.Emoji] whose id is
    the id of the emoji of one of the counters (unicode emojis, partial
    emojis, emojis of other guilds), the pass leaves every reaction count as
    it was. *)
Theorem foreign_reactions_ignored self counters messages h :
  counting h counters →
  (∀ message reaction re r c,
     message ∈ messages → reaction ∈ Message.reactions message →
     Reaction.emoji reaction = Reaction.IsEmoji re →
     r ∈ counters → h !! r = Some c →
     Emoji.id re ≠ Emoji.id (_EmojiCounter._emoji c)) →
  ∃ h',
    EmojiRanking.count_emojis self counters messages h = Some (counters, h') ∧
    ∀ r, observe (Counter.reaction_count r) h'
         = observe (Counter.reaction_count r) h.
Proof.
  intros Hc Hforeign. eexists. split; [by apply count_emojis_run|].
  intros r. rewrite !observe_reaction_tally, tally_apply_ops, filter_none.
  { destruct (tally _ h r); simpl; [|done]. f_equal. lia. }
  intros op Hop ->. unfold pass_ops, message_ops in Hop.
  apply list_elem_of_bind in Hop as (m & Hop & Hm).
  apply list_elem_of_bind in Hop as (r' & Hop & Hr').
  unfold counter_ops in Hop.
  destruct (h !! r') as [c|] eqn:Hlook; [|by apply elem_of_nil in Hop].
  apply elem_of_app in Hop as [Hop|Hop].
  - case_decide; [|by apply elem_of_nil in Hop].
    by apply list_elem_of_singleton in Hop.
  - apply list_elem_of_fmap in Hop as (x & _ & Hx).
    apply list_elem_of_filter in Hx as [[(re & Hre & Hid) _] Hx].
    by apply (Hforeign m x re r' c).
Qed.

Lemma foreign_reactions_ignored_witness :
  counting store_5531 [0; 1; 2; 3]%nat ∧
  ∃ h',
    EmojiRanking.count_emojis (cog _SortOrder.DESCENDING true [])
      [0; 1; 2; 3]%nat
      [reacted_message (human 1) (Reaction.IsStr "+1") [human 2];
       reacted_message (human 1) (Reaction.IsPartialEmoji (Some 100) "A")
         [human 2];
       reacted_message (human 1)
         (Reaction.IsEmoji {| Emoji.id := 999; Emoji.name := "A" |}) [human 2]]
      store_5531 = Some ([0; 1; 2; 3]%nat, h') ∧
    ∀ r, observe (Counter.reaction_count r) h'
         = observe (Counter.reaction_count r) store_5531.
Proof.
  assert (counting store_5531 [0; 1; 2; 3]%nat) as Hcnt by solve_counting.
  split; [exact Hcnt|].
  apply (foreign_reactions_ignored (cog _SortOrder.DESCENDING true []));
    [exact Hcnt|].
  intros message reaction re r c Hm Hx Hre Hr Hc.
  repeat (apply elem_of_cons in Hm as [->|Hm];
          [apply list_elem_of_singleton in Hx as ->; simpl in Hre;
           try discriminate Hre; injection Hre as <-;
           repeat (apply elem_of_cons in Hr as [->|Hr];
                   [vm_compute in Hc; injection Hc as <-; discriminate|]);
           by apply elem_of_nil in Hr|]).
  by apply elem_of_nil in Hm.
Defined.

Lemma allowed_empty self :
  allowed self = ∅ ↔ EmojiRanking._user_ids self = [].
Proof.
  unfold allowed. split; [|by intros ->].
  destruct (EmojiRanking._user_ids self) as [|x l]; [done|].
  intros Hempty. assert (x ∈ (∅ : gset Z)) as Hx; [|by apply not_elem_of_empty in Hx].
  rewrite <- Hempty. apply elem_of_list_to_set. by left.
Qed.

(** X7: with an author filter, a message whose author is not in the filter
    and none of whose reactions was applied by a user of the filter changes
    nothing at all. *)
Theorem author_filter_excludes self counters messages h :
  counting h counters →
  EmojiRanking._user_ids self ≠ [] →
  Forall (λ message,
            (User.id (Message.author message) ∉ EmojiRanking._user_ids self) ∧
            Forall (λ reaction,
                      Forall (λ user, User.id user ∉ EmojiRanking._user_ids self)
                        (Reaction.users reaction))
              (Message.reactions message)) messages →
  EmojiRanking.count_emojis self counters messages h = Some (counters, h).
Proof.
  intros Hc Hids Hmsgs. rewrite count_emojis_run by done.
  assert (allowed self ≠ ∅) as Hallowed by (by rewrite allowed_empty).
  assert (pass_ops self h counters messages = []) as ->; [|done].
  apply bind_nil_all. intros m Hm.
  rewrite Forall_forall in Hmsgs. destruct (Hmsgs m Hm) as [Hauthor Hreactions].
  apply bind_nil_all. intros r Hr. unfold counter_ops.
  destruct (h !! r) as [c|]; [|done].
  rewrite decide_False.
  2:{ intros (_ & Hin & _). specialize (Hin Hallowed).
      apply elem_of_list_to_set in Hin. done. }
  rewrite filter_none; [done|].
  intros x Hx [_ [Hne _]]. apply Hne. unfold narrowed.
  rewrite decide_False by done. apply filter_none.
  intros u Hu Hin. apply elem_of_list_to_set in Hin.
  rewrite Forall_forall in Hreactions. specialize (Hreactions x Hx).
  rewrite Forall_forall in Hreactions. by apply (Hreactions u).
Qed.

Lemma author_filter_excludes_witness :
  counting store_5531 [0; 1; 2; 3]%nat ∧
  EmojiRanking._user_ids (cog _SortOrder.DESCENDING true [7; 8]) ≠ [] ∧
  EmojiRanking.count_emojis (cog _SortOrder.DESCENDING true [7; 8])
    [0; 1; 2; 3]%nat
    [{| Message.author := human 1; Message.content := "A B C D";
        Message.reactions :=
          [{| Reaction.emoji := Reaction.IsEmoji emoji_A;
              Reaction.users := [human 2; robot 3] |}] |}]
    store_5531
  = Some ([0; 1; 2; 3]%nat, store_5531).
Proof.
  assert (counting store_5531 [0; 1; 2; 3]%nat) as Hcnt by solve_counting.
  assert (EmojiRanking._user_ids (cog _SortOrder.DESCENDING true [7; 8]) ≠ [])
    as Hids by discriminate.
  split; [exact Hcnt|]. split; [exact Hids|].
  apply (author_filter_excludes (cog _SortOrder.DESCENDING true [7; 8]));
    [exact Hcnt|exact Hids|].
  assert (∀ x : Z, x ≠ 7 → x ≠ 8 → x ∉ [7; 8]) as Hout.
  { intros x H7 H8 Hx. repeat (apply elem_of_cons in Hx as [->|Hx]; [done|]).
    by apply elem_of_nil in Hx. }
  repeat constructor; apply Hout; discriminate.
Defined.

(** ** Bounds on the tallies *)

Lemma counter_ops_content_le self h message r :
  (length (filter (λ op, op = (r, _EmojiCountType.MESSAGE_CONTENT))
             (counter_ops self h message r)) ≤ 1)%nat.
Proof.
  unfold counter_ops. destruct (h !! r) as [c|] eqn:Hc; [|simpl; lia].
  pose proof (filter_counter_ops_content self h message r c Hc) as Hlen.
  unfold counter_ops in Hlen. rewrite Hc in Hlen. rewrite Hlen.
  case_decide; lia.
Qed.

Lemma counter_ops_reaction_le self h message r :
  (length (filter (λ op, op = (r, _EmojiCountType.MESSAGE_REACTION))
             (counter_ops self h message r))
   ≤ length (Message.reactions message))%nat.
Proof.
  unfold counter_ops. destruct (h !! r) as [c|] eqn:Hc; [|simpl; lia].
  pose proof (filter_counter_ops_reaction self h message r c Hc) as Hlen.
  unfold counter_ops in Hlen. rewrite Hc in Hlen. rewrite Hlen.
  apply length_filter.
Qed.

Lemma pass_ops_bounds self h counters messages r :
  NoDup counters → r ∈ counters →
  (length (filter (λ op, op = (r, _EmojiCountType.MESSAGE_CONTENT))
             (pass_ops self h counters messages)) ≤ length messages)%nat ∧
  (length (filter (λ op, op = (r, _EmojiCountType.MESSAGE_REACTION))
             (pass_ops self h counters messages))
   ≤ sum_list ((λ message, length (Message.reactions message)) <$> messages))%nat.
Proof.
  intros Hnd Hr. induction messages as [|m ms [IHc IHr]]; [simpl; lia|].
  rewrite pass_ops_cons, !filter_app, !length_app.
  rewrite !(filter_message_ops _ _ _ _ _ _ Hnd Hr).
  pose proof (counter_ops_content_le self h m r).
  pose proof (counter_ops_reaction_le self h m r).
  rewrite fmap_cons. simpl. lia.
Qed.

(** X8: starting from the counters [_execute] builds, after any sequence of
    passes the content count of a counter is at most the number of messages
    counted and its reaction count at most the number of reaction entries on
    them, whatever the texts, the users and the filters. *)
Theorem tallies_bounded self emojis batches h :
  ∃ counters h0 h1,
    EmojiRanking.new_counters emojis h = Some (counters, h0) ∧
    EmojiRanking.count_channels self counters batches h0 = Some (counters, h1) ∧
    Forall (λ r,
      ∃ text reaction,
        observe (Counter.content_count r) h1 = Some text ∧
        observe (Counter.reaction_count r) h1 = Some reaction ∧
        0 ≤ text ≤ Z.of_nat (length (concat batches)) ∧
        0 ≤ reaction
          ≤ Z.of_nat (sum_list ((λ message, length (Message.reactions message))
                                  <$> concat batches)))
      counters.
Proof.
  destruct (new_counters_run emojis h)
    as (counters & h0 & Hnew & Hnd & _ & _ & Hinit).
  assert (∀ r, r ∈ counters → ∃ e, h0 !! r = Some (_EmojiCounter.__init__ e)) as H0.
  { intros r Hr. apply list_elem_of_lookup in Hr as [i Hi].
    destruct (Forall2_lookup_l _ _ _ _ _ Hinit Hi) as (e & _ & He). by exists e. }
  assert (counting h0 counters) as Hc0.
  { intros r Hr. destruct (H0 r Hr) as [e He].
    exists (_EmojiCounter.__init__ e). split; [done|].
    intros ty. by rewrite (init_counts e ty). }
  eexists counters, h0, _. split; [done|].
  split; [by apply count_channels_run|].
  apply Forall_forall. intros r Hr. destruct (H0 r Hr) as [e He].
  assert (∀ ty, tally ty h0 r = Some 0) as Hz.
  { intros ty. unfold tally. rewrite He. exact (init_counts e ty). }
  destruct (pass_ops_bounds self h0 counters (concat batches) r Hnd Hr)
    as [Hle_c Hle_r].
  eexists _, _. rewrite observe_content_tally, observe_reaction_tally.
  rewrite !tally_apply_ops, !Hz. simpl. split; [done|]. split; [done|]. lia.
Qed.

(** ** The report of [_execute] *)

Lemma field_run h r :
  EmojiRanking.field r h = (λ f, (f, h)) <$> (h !! r ≫= field_of).
Proof.
  unfold EmojiRanking.field. destruct (h !! r) as [c|] eqn:Hc.
  - erewrite bind_run; [|by apply rank_run].
    erewrite bind_run; [|by apply emoji_run].
    erewrite bind_run; [|by apply total_count_run].
    unfold Counter.content_count, Counter.reaction_count, field_of,
      bind, deref, lift, ret. rewrite Hc. simpl.
    destruct (_EmojiCounter._counts c !! _EmojiCountType.MESSAGE_CONTENT);
      simpl; [|done].
    rewrite Hc.
    by destruct (_EmojiCounter._counts c !! _EmojiCountType.MESSAGE_REACTION).
  - unfold Counter.rank, bind, deref, lift. by rewrite Hc.
Qed.

Lemma fields_run h out :
  (∀ r, r ∈ out → is_Some (h !! r ≫= field_of)) →
  ∃ fs, map_m EmojiRanking.field out h = Some (fs, h) ∧
        Forall2 (λ r f, h !! r ≫= field_of = Some f) out fs.
Proof.
  induction out as [|r out IH]; intros Hout.
  - exists []. split; [done|constructor].
  - destruct (Hout r ltac:(by left)) as [f Hf].
    destruct IH as (fs & Hrun & Hfs).
    { intros r' Hr'. apply Hout. by right. }
    exists (f :: fs). split; [|by constructor].
    cbn [map_m]. erewrite bind_run; [|by rewrite field_run, Hf].
    by erewrite bind_run; [|exact Hrun].
Qed.

Lemma field_of_counting c :
  (∀ ty, is_Some (_EmojiCounter._counts c !! ty)) →
  ∃ content reaction,
    _EmojiCounter._counts c !! _EmojiCountType.MESSAGE_CONTENT = Some content ∧
    _EmojiCounter._counts c !! _EmojiCountType.MESSAGE_REACTION = Some reaction ∧
    field_of c = Some (Emoji.name (_EmojiCounter._emoji c), _EmojiCounter._rank c,
                       content + reaction, content, reaction).
Proof.
  intros Hkeys.
  destruct (Hkeys _EmojiCountType.MESSAGE_CONTENT) as [a Ha].
  destruct (Hkeys _EmojiCountType.MESSAGE_REACTION) as [b Hb].
  exists a, b. split; [done|]. split; [done|].
  unfold field_of. rewrite Ha, Hb. simpl. by rewrite (sum_values_both _ _ _ Ha Hb).
Qed.

(** The stages of [_execute]: the new counters, the store after counting,
    the ranked list and the lines read from the final store. *)
Lemma execute_stages self emojis histories h :
  ∃ counters h0 h1 out h2 fs,
    EmojiRanking.new_counters emojis h = Some (counters, h0) ∧
    NoDup counters ∧
    Forall2 (λ r emoji, h0 !! r = Some (_EmojiCounter.__init__ emoji))
      counters emojis ∧
    h1 = apply_ops (pass_ops self h0 counters (concat histories)) h0 ∧
    counting h1 counters ∧
    EmojiRanking.sort_ranking self counters
      (EmojiRanking.clamp_rank self emojis) h1 = Some (out, h2) ∧
    out = slice_to (sorted (key_in h1)
                      (_SortOrder.reverse (EmojiRanking._order self)) counters)
            (EmojiRanking.clamp_rank self emojis) ∧
    rank_inv h1 out (length out) h2 ∧
    EmojiRanking._execute self emojis histories h = Some (fs, h2) ∧
    Forall2 (λ r f, h2 !! r ≫= field_of = Some f) out fs.
Proof.
  destruct (new_counters_run emojis h)
    as (counters & h0 & Hnew & Hnd & _ & _ & Hinit).
  assert (counting h0 counters) as Hc0.
  { intros r [i Hi]%list_elem_of_lookup.
    destruct (Forall2_lookup_l _ _ _ _ _ Hinit Hi) as (e & _ & He).
    exists (_EmojiCounter.__init__ e). split; [done|].
    intros ty. by rewrite (init_counts e ty). }
  pose proof (count_channels_run self counters histories h0 Hc0) as Hcount.
  set (h1 := apply_ops _ h0) in Hcount.
  assert (counting h1 counters) as Hc1 by (by apply apply_ops_counting).
  assert (allocated h1 counters) as Hall1.
  { intros r Hr. destruct (Hc1 r Hr) as (c & Hc & _). by exists c. }
  destruct (sort_ranking_run self counters
              (EmojiRanking.clamp_rank self emojis) h1 Hall1)
    as (h2 & Hrank & Hinv).
  set (out := slice_to _ _) in *.
  destruct (fields_run h2 out) as (fs & Hfields & Hfs).
  { intros r Hr. destruct Hinv as (Hsame & _ & _).
    destruct (Hc1 r) as (c1 & Hlook1 & Hkeys).
    { apply elem_of_slice_to in Hr. by rewrite sorted_perm in Hr. }
    destruct (same_fields_lookup _ _ _ _ (Hsame r) Hlook1)
      as (c2 & Hlook2 & _ & Hcounts).
    rewrite Hlook2. simpl. rewrite <- Hcounts in Hkeys.
    destruct (field_of_counting c2 Hkeys) as (a & b & _ & _ & ->). by eexists. }
  exists counters, h0, h1, out, h2, fs.
  do 8 (split; [done|]). split; [|done].
  unfold EmojiRanking._execute. erewrite bind_run; [|exact Hnew].
  erewrite bind_run; [|exact Hcount].
  unfold EmojiRanking.fields. by erewrite bind_run; [|exact Hrank].
Qed.

(** Every line of the report, from the store after counting. *)
Lemma execute_lines self emojis histories h :
  ∃ counters h0 h1 out h2 fs,
    EmojiRanking.new_counters emojis h = Some (counters, h0) ∧
    Forall2 (λ r emoji, h0 !! r = Some (_EmojiCounter.__init__ emoji))
      counters emojis ∧
    h1 = apply_ops (pass_ops self h0 counters (concat histories)) h0 ∧
    out = slice_to (sorted (key_in h1)
                      (_SortOrder.reverse (EmojiRanking._order self)) counters)
            (EmojiRanking.clamp_rank self emojis) ∧
    EmojiRanking._execute self emojis histories h = Some (fs, h2) ∧
    length fs = length out ∧
    ∀ i r, out !! i = Some r →
      ∃ e a b,
        e ∈ emojis ∧ h0 !! r = Some (_EmojiCounter.__init__ e) ∧
        tally _EmojiCountType.MESSAGE_CONTENT h1 r = Some a ∧
        tally _EmojiCountType.MESSAGE_REACTION h1 r = Some b ∧
        0 ≤ a ∧ 0 ≤ b ∧ key_in h1 r = a + b ∧
        fs !! i = Some (Emoji.name e, expected_rank (key_in h1) out i,
                        a + b, a, b).
Proof.
  destruct (execute_stages self emojis histories h)
    as (counters & h0 & h1 & out & h2 & fs & Hnew & Hnd & Hinit & Hh1 & Hc1
        & Hrank & Hout & Hinv & Hrun & Hfs).
  exists counters, h0, h1, out, h2, fs.
  do 5 (split; [done|]).
  split; [symmetry; by eapply Forall2_length|].
  intros i r Hi.
  assert (r ∈ counters) as Hr.
  { apply list_elem_of_lookup_2 in Hi. rewrite Hout in Hi.
    apply elem_of_slice_to in Hi. by rewrite sorted_perm in Hi. }
  pose proof Hr as [k Hk]%list_elem_of_lookup.
  destruct (Forall2_lookup_l _ _ _ _ _ Hinit Hk) as (e & He & Hlook0).
  destruct (Hc1 r Hr) as (c1 & Hlook1 & Hkeys1).
  destruct Hinv as (Hsame & _ & Hranks).
  destruct (same_fields_lookup _ _ _ _ (Hsame r) Hlook1)
    as (c2 & Hlook2 & Hemoji & Hcounts).
  rewrite <- Hcounts in Hkeys1.
  destruct (field_of_counting c2 Hkeys1) as (a & b & Ha & Hb & Hfield).
  destruct (Forall2_lookup_l _ _ _ _ _ Hfs Hi) as (f & Hf & Hline).
  rewrite Hlook2 in Hline. simpl in Hline. rewrite Hfield in Hline.
  injection Hline as <-.
  assert (tally _EmojiCountType.MESSAGE_CONTENT h1 r = Some a) as Hta.
  { unfold tally. rewrite Hlook1. simpl. by rewrite <- Hcounts. }
  assert (tally _EmojiCountType.MESSAGE_REACTION h1 r = Some b) as Htb.
  { unfold tally. rewrite Hlook1. simpl. by rewrite <- Hcounts. }
  assert (∀ ty, tally ty h0 r = Some 0) as Hz.
  { intros ty. unfold tally. rewrite Hlook0. exact (init_counts e ty). }
  exists e, a, b. split; [by eapply list_elem_of_lookup_2|]. split; [done|].
  split; [done|]. split; [done|].
  split; [rewrite Hh1 in Hta; by eapply tally_nonneg|].
  split; [rewrite Hh1 in Htb; by eapply tally_nonneg|].
  split.
  { rewrite (key_in_lookup _ _ _ Hlook1), <- Hcounts.
    by apply sum_values_both. }
  rewrite Hf.
  assert (_EmojiCounter._emoji c2 = e) as ->.
  { pose proof (apply_ops_emoji (pass_ops self h0 counters (concat histories))
                  h0 r) as Hemoji1.
    rewrite <- Hh1, Hlook1, Hlook0 in Hemoji1. simpl in Hemoji1.
    injection Hemoji1 as Hemoji1. by rewrite Hemoji, Hemoji1. }
  assert (_EmojiCounter._rank c2 = expected_rank (key_in h1) out i) as ->; [|done].
  specialize (Hranks i r ltac:(by apply lookup_lt_Some in Hi) Hi).
  rewrite Hlook2 in Hranks. by injection Hranks.
Qed.

Lemma clamp_rank_bounds self emojis :
  emojis ≠ [] →
  1 ≤ EmojiRanking.clamp_rank self emojis ≤ Z.of_nat (length emojis).
Proof.
  intros Hne. unfold EmojiRanking.clamp_rank.
  destruct emojis; [done|]. simpl length. lia.
Qed.

(** X9: once the histories of the channels have been read and the users of
    the reactions fetched, what [_execute] does with them cannot fail:
    building the counters, counting, ranking and reading the fields yield a
    report, whatever the emojis, the messages read and the requested rank.
    (A read that raises is not part of [histories]; in the code only
    [Forbidden] from a history is caught, anything else ends the command.)
    The report has [min(max(1, min(rank, n)), n)] lines, so between 1 and
    [n] of them for a guild with [n > 0] emojis; every line names an emoji
    of the guild, its total is the sum of its two counts, which are not
    negative, its rank lies between 1 and its line number, and the lines
    are in the order of their totals. *)
Theorem execute_report self emojis histories h :
  ∃ lines,
    observe (EmojiRanking._execute self emojis histories) h = Some lines ∧
    length lines
    = Nat.min (Z.to_nat (EmojiRanking.clamp_rank self emojis)) (length emojis) ∧
    (emojis ≠ [] → (1 ≤ length lines ≤ length emojis)%nat) ∧
    (∀ i f, lines !! i = Some f →
       (∃ e, e ∈ emojis ∧ line_name f = Emoji.name e) ∧
       line_total f = line_content f + line_reaction f ∧
       0 ≤ line_content f ∧ 0 ≤ line_reaction f ∧
       1 ≤ line_rank f ≤ Z.of_nat i + 1) ∧
    (∀ i j f g, (i ≤ j)%nat → lines !! i = Some f → lines !! j = Some g →
       if decide (EmojiRanking._order self = _SortOrder.DESCENDING)
       then line_total g ≤ line_total f
       else line_total f ≤ line_total g).
Proof.
  destruct (execute_lines self emojis histories h)
    as (counters & h0 & h1 & out & h2 & lines & Hnew & Hinit & Hh1 & Hout
        & Hrun & Hlines & Hline).
  pose proof (Forall2_length _ _ _ Hinit) as Hlen.
  assert (0 ≤ EmojiRanking.clamp_rank self emojis) as Hpos.
  { unfold EmojiRanking.clamp_rank. lia. }
  assert (length lines
          = Nat.min (Z.to_nat (EmojiRanking.clamp_rank self emojis))
              (length emojis)) as Hsize.
  { rewrite Hlines, Hout, slice_to_nonneg, length_take by done.
    by rewrite (Permutation_length (sorted_perm _ _ _)), Hlen. }
  assert (contiguous_keys (key_in h1) out) as Hcontig.
  { rewrite Hout, slice_to_nonneg by done.
    apply contiguous_take, contiguous_sorted. }
  assert (∀ i f, lines !! i = Some f → ∃ r, out !! i = Some r) as Hback.
  { intros i f Hf. apply lookup_lt_is_Some_2. rewrite <- Hlines.
    by eapply lookup_lt_Some. }
  exists lines. split; [unfold observe; by rewrite Hrun|]. split; [done|].
  split_and!.
  - intros Hne. pose proof (clamp_rank_bounds self emojis Hne). lia.
  - intros i f Hf. destruct (Hback i f Hf) as [r Hr].
    destruct (Hline i r Hr) as (e & a & b & He & _ & _ & _ & Ha & Hb & _ & Hf').
    rewrite Hf in Hf'. injection Hf' as ->.
    unfold line_name, line_total, line_content, line_reaction, line_rank. simpl.
    split; [by exists e|]. do 3 (split; [done|]).
    by apply (expected_rank_bounds _ _ i r).
  - intros i j f g Hij Hf Hg.
    destruct (Hback i f Hf) as [p Hp]. destruct (Hback j g Hg) as [r Hr].
    destruct (Hline i p Hp) as (? & ? & ? & _ & _ & _ & _ & _ & _ & Hkp & Hf').
    destruct (Hline j r Hr) as (? & ? & ? & _ & _ & _ & _ & _ & _ & Hkr & Hg').
    rewrite Hf in Hf'. injection Hf' as ->.
    rewrite Hg in Hg'. injection Hg' as ->.
    unfold line_total. simpl. rewrite <- Hkp, <- Hkr.
    rewrite Hout in Hp, Hr.
    pose proof (sorted_slice_lookup _ _ _ _ i j p r Hij Hp Hr) as Hle.
    unfold _SortOrder.reverse in Hle. by case_decide.
Qed.

(** X10: the report does not depend on the order in which the channels are
    read nor on how the messages are spread over them. *)
Theorem execute_channel_order self emojis histories1 histories2 h :
  concat histories1 ≡ₚ concat histories2 →
  EmojiRanking._execute self emojis histories1 h
  = EmojiRanking._execute self emojis histories2 h.
Proof.
  intros Hperm.
  destruct (execute_stages self emojis histories1 h)
    as (counters & h0 & _ & _ & _ & _ & Hnew & _ & Hinit & _).
  assert (counting h0 counters) as Hc0.
  { intros r [i Hi]%list_elem_of_lookup.
    destruct (Forall2_lookup_l _ _ _ _ _ Hinit Hi) as (e & _ & He).
    exists (_EmojiCounter.__init__ e). split; [done|].
    intros ty. by rewrite (init_counts e ty). }
  unfold EmojiRanking._execute.
  erewrite !bind_run; [reflexivity|..]; try exact Hnew.
  - by apply count_channels_run.
  - rewrite (count_channels_run _ _ _ _ Hc0). do 2 f_equal.
    apply apply_ops_perm. unfold pass_ops. by rewrite Hperm.
Qed.

Lemma execute_channel_order_witness :
  concat [[text_message (human 1) "A"; text_message (human 2) "B A"];
          [text_message (robot 3) "B"]]
  ≡ₚ concat [[text_message (robot 3) "B"]; [];
             [text_message (human 1) "A"; text_message (human 2) "B A"]] ∧
  EmojiRanking._execute (cog _SortOrder.DESCENDING true []) [emoji_A; emoji_B]
    [[text_message (human 1) "A"; text_message (human 2) "B A"];
     [text_message (robot 3) "B"]] ∅
  = EmojiRanking._execute (cog _SortOrder.DESCENDING true []) [emoji_A; emoji_B]
      [[text_message (robot 3) "B"]; [];
       [text_message (human 1) "A"; text_message (human 2) "B A"]] ∅.
Proof.
  assert (concat [[text_message (human 1) "A"; text_message (human 2) "B A"];
                  [text_message (robot 3) "B"]]
          ≡ₚ concat [[text_message (robot 3) "B"]; [];
                     [text_message (human 1) "A"; text_message (human 2) "B A"]]) as Hperm.
  { simpl. apply (Permutation_app_comm [_; _] [_]). }
  split; [exact Hperm|].
  exact (execute_channel_order _ _ _ _ _ Hperm).
Defined.

(** ** The channels of a guild *)

Lemma scan_channels_readable self channels : ∀ counters h,
  EmojiRanking.scan_channels self counters channels h
  = EmojiRanking.count_channels self counters (readable channels) h.
Proof.
  induction channels as [|c cs IH]; intros counters h; [done|].
  cbn [EmojiRanking.scan_channels]. unfold readable. cbn [omap list_omap].
  fold (readable cs). destruct (Channel.history c); [|apply IH].
  cbn [EmojiRanking.count_channels]. unfold bind.
  destruct (EmojiRanking.count_emojis self counters messages h) as [[cs' h']|];
    [|done].
  apply IH.
Qed.

(** [_execute] on a guild is [_execute] on the histories that could be read
    of the channels it selects. *)
Lemma execute_guild_histories self channel_ids guild h :
  EmojiRanking.execute_guild self channel_ids guild h
  = EmojiRanking._execute self (Guild.emojis guild)
      (readable (EmojiRanking.select_channels channel_ids guild)) h.
Proof.
  unfold EmojiRanking.execute_guild, EmojiRanking._execute, bind.
  destruct (EmojiRanking.new_counters (Guild.emojis guild) h) as [[cs h0]|];
    [|done].
  by rewrite scan_channels_readable.
Qed.

Lemma readable_select_all guild :
  readable (EmojiRanking.select_channels [] guild)
  = omap contribution (Guild.channels guild).
Proof.
  unfold EmojiRanking.select_channels, readable. simpl.
  induction (Guild.channels guild) as [|c cs IH]; [done|].
  rewrite fmap_cons. cbn [omap list_omap]. unfold contribution at 1.
  destruct (Channel.is_text c); [|exact IH].
  cbn [omap list_omap]. destruct (Channel.history c); [|exact IH].
  f_equal. exact IH.
Qed.

Lemma readable_select_ids guild channel_ids :
  channel_ids ≠ [] →
  readable (EmojiRanking.select_channels channel_ids guild)
  = omap (λ channel_id, Guild.get_channel guild channel_id ≫= contribution)
      channel_ids.
Proof.
  intros Hne. unfold EmojiRanking.select_channels, readable.
  rewrite decide_True by (destruct channel_ids; [done|simpl; lia]).
  clear Hne. induction channel_ids as [|i ids IH]; [done|].
  rewrite fmap_cons. cbn [omap list_omap].
  destruct (Guild.get_channel guild i) as [c|]; [|exact IH].
  simpl. unfold contribution at 1.
  destruct (Channel.is_text c); [|exact IH].
  cbn [omap list_omap]. destruct (Channel.history c); [|exact IH].
  f_equal. exact IH.
Qed.

(** X11: without channel ids every channel of the guild is visited, and one
    that is no text channel or whose history raises [Forbidden] changes
    nothing: the run is the same as on the guild without that channel. *)
Theorem unreadable_channel_ignored self emojis channels1 channel channels2 h :
  Channel.is_text channel = false ∨ Channel.history channel = Channel.Forbidden →
  EmojiRanking.execute_guild self []
    {| Guild.emojis := emojis;
       Guild.channels := channels1 ++ channel :: channels2 |} h
  = EmojiRanking.execute_guild self []
      {| Guild.emojis := emojis; Guild.channels := channels1 ++ channels2 |} h.
Proof.
  intros Hc. rewrite !execute_guild_histories, !readable_select_all. simpl.
  rewrite !omap_app. cbn [omap list_omap].
  assert (contribution channel = None) as ->; [|done].
  unfold contribution. destruct Hc as [-> | ->]; [done|].
  by destruct (Channel.is_text channel).
Qed.

Lemma unreadable_channel_ignored_witness :
  (Channel.is_text {| Channel.id := 2; Channel.is_text := true;
                      Channel.history := Channel.Forbidden |} = false ∨
   Channel.history {| Channel.id := 2; Channel.is_text := true;
                      Channel.history := Channel.Forbidden |}
   = Channel.Forbidden) ∧
  EmojiRanking.execute_guild (cog _SortOrder.DESCENDING false []) []
    {| Guild.emojis := [emoji_A; emoji_B];
       Guild.channels :=
         [{| Channel.id := 1; Channel.is_text := true;
             Channel.history :=
               Channel.Messages [text_message (human 1) "A"] |}]
         ++ {| Channel.id := 2; Channel.is_text := true;
               Channel.history := Channel.Forbidden |} :: [] |} ∅
  = EmojiRanking.execute_guild (cog _SortOrder.DESCENDING false []) []
      {| Guild.emojis := [emoji_A; emoji_B];
         Guild.channels :=
           [{| Channel.id := 1; Channel.is_text := true;
               Channel.history :=
                 Channel.Messages [text_message (human 1) "A"] |}] ++ [] |} ∅.
Proof.
  assert (Channel.is_text {| Channel.id := 2; Channel.is_text := true;
                             Channel.history := Channel.Forbidden |} = false ∨
          Channel.history {| Channel.id := 2; Channel.is_text := true;
                             Channel.history := Channel.Forbidden |}
          = Channel.Forbidden) as Hc by (right; reflexivity).
  split; [exact Hc|].
  exact (unreadable_channel_ignored _ _ _ _ _ _ Hc).
Defined.

(** X12: among several channel ids, one that names no channel of the guild,
    or a channel that is no text channel or cannot be read, changes nothing:
    the run is the same as without that id. *)
Theorem unusable_channel_id_ignored self guild ids1 channel_id ids2 h :
  ids1 ++ ids2 ≠ [] →
  (∀ channel, Guild.get_channel guild channel_id = Some channel →
     Channel.is_text channel = false ∨
     Channel.history channel = Channel.Forbidden) →
  EmojiRanking.execute_guild self (ids1 ++ channel_id :: ids2) guild h
  = EmojiRanking.execute_guild self (ids1 ++ ids2) guild h.
Proof.
  intros Hne Hc.
  rewrite !execute_guild_histories, !readable_select_ids
    by (done || by destruct ids1).
  rewrite !omap_app. cbn [omap list_omap].
  assert (Guild.get_channel guild channel_id ≫= contribution = None) as ->;
    [|done].
  destruct (Guild.get_channel guild channel_id) as [c|]; [|done].
  simpl. unfold contribution. destruct (Hc c eq_refl) as [-> | ->]; [done|].
  by destruct (Channel.is_text c).
Qed.

Lemma unusable_channel_id_ignored_witness :
  [1] ++ [2] ≠ [] ∧
  (∀ channel, Guild.get_channel guild_AB 42 = Some channel →
     Channel.is_text channel = false ∨
     Channel.history channel = Channel.Forbidden) ∧
  EmojiRanking.execute_guild (cog _SortOrder.DESCENDING false [])
    ([1] ++ 42 :: [2]) guild_AB ∅
  = EmojiRanking.execute_guild (cog _SortOrder.DESCENDING false [])
      ([1] ++ [2]) guild_AB ∅.
Proof.
  assert ([1] ++ [2] ≠ ([] : list Z)) as Hne by discriminate.
  assert (∀ channel, Guild.get_channel guild_AB 42 = Some channel →
            Channel.is_text channel = false ∨
            Channel.history channel = Channel.Forbidden) as Hc.
  { intros channel Hget. vm_compute in Hget. discriminate Hget. }
  split; [exact Hne|]. split; [exact Hc|].
  exact (unusable_channel_id_ignored _ guild_AB [1] 42 [2] ∅ Hne Hc).
Defined.





(** ** The texts of ranks and counts *)

Lemma length_append (s t : string) :
  String.length (s +:+ t) = (String.length s + String.length t)%nat.
Proof.
  induction s as [|c s IH]; [done|].
  change (S (String.length (s +:+ t))
          = S (String.length s + String.length t))%nat.
  by rewrite IH.
Qed.

Lemma append_inj_r (s1 s2 t : string) : s1 +:+ t = s2 +:+ t → s1 = s2.
Proof.
  revert s2. induction s1 as [|c s1 IH]; intros [|c' s2] Heq.
  - done.
  - apply (f_equal String.length) in Heq.
    rewrite !length_append in Heq. cbn in Heq. lia.
  - apply (f_equal String.length) in Heq.
    rewrite !length_append in Heq. cbn in Heq. lia.
  - change (String c (s1 +:+ t) = String c' (s2 +:+ t)) in Heq.
    injection Heq as -> Heq. f_equal. by apply IH.
Qed.

Lemma th_not_short (s : string) :
  s +:+ "th" ≠ "1st"%string ∧ s +:+ "th" ≠ "2nd"%string ∧
  s +:+ "th" ≠ "3rd"%string.
Proof.
  repeat split; intros Heq; pose proof (f_equal String.length Heq) as Hlen;
    rewrite length_append in Hlen; cbn in Hlen;
    destruct s as [|a [|b s]]; try discriminate; cbn in Hlen; lia.
Qed.

Lemma times_not_one (s : string) : s +:+ " times" ≠ "1 time"%string.
Proof.
  intros Heq. pose proof (f_equal String.length Heq) as Hlen.
  rewrite length_append in Hlen. cbn in Hlen.
  destruct s as [|a s]; [discriminate|]. cbn in Hlen. lia.
Qed.

(** X14: the texts are faithful: two ranks with the same text are the same
    rank, and two counts with the same text are the same count. *)
Theorem labels_injective :
  (∀ a b, _get_rank_str a = _get_rank_str b → a = b) ∧
  (∀ a b, _get_times_str a = _get_times_str b → a = b).
Proof.
  split; intros a b.
  - unfold _get_rank_str, str_of_int.
    pose proof (th_not_short (pretty a)) as (Ha1 & Ha2 & Ha3).
    pose proof (th_not_short (pretty b)) as (Hb1 & Hb2 & Hb3).
    repeat case_decide; subst; intros Heq; try done; try congruence.
    by apply append_inj_r, (inj pretty) in Heq.
  - unfold _get_times_str, str_of_int.
    pose proof (times_not_one (pretty a)). pose proof (times_not_one (pretty b)).
    repeat case_decide; subst; intros Heq; try done; try congruence.
    by apply append_inj_r, (inj pretty) in Heq.
Qed.

Lemma labels_injective_witness :
  _get_rank_str 21 = _get_rank_str (20 + 1) ∧ 21 = 20 + 1 ∧
  _get_times_str 0 = _get_times_str (1 - 1) ∧ 0 = 1 - 1.
Proof.
  assert (_get_rank_str 21 = _get_rank_str (20 + 1)) as Hr by reflexivity.
  assert (_get_times_str 0 = _get_times_str (1 - 1)) as Ht by reflexivity.
  split; [exact Hr|]. split; [exact (proj1 labels_injective _ _ Hr)|].
  split; [exact Ht|]. exact (proj2 labels_injective _ _ Ht).
Defined.

(** ** The arguments of the prefix command *)

Lemma str_drop_append (sep b : string) :
  str_drop (String.length sep) (sep +:+ b) = b.
Proof. induction sep as [|c sep IH]; [by destruct b|]. exact IH. Qed.

Lemma prefix_drop (sep s : string) :
  String.prefix sep s = true → s = sep +:+ str_drop (String.length sep) s.
Proof.
  intros Hp. apply prefix_spec in Hp as [b ->]. by rewrite str_drop_append.
Qed.

Lemma split_first_Some (sep s a b : string) :
  split_first sep s = Some (a, b) → s = a +:+ sep +:+ b.
Proof.
  revert a. induction s as [|c s IH]; intros a; cbn [split_first];
    destruct (String.prefix sep _) eqn:Hp.
  - intros [= <- <-]. exact (prefix_drop _ _ Hp).
  - done.
  - intros [= <- <-]. exact (prefix_drop _ _ Hp).
  - destruct (split_first sep s) as [[a' b']|]; [|done].
    intros [= <- <-]. by rewrite (IH a' eq_refl).
Qed.

Lemma split_first_None (sep s : string) :
  split_first sep s = None ↔ str_contains sep s = false.
Proof.
  induction s as [|c s IH]; cbn [split_first str_contains];
    destruct (String.prefix sep _); cbn [orb]; try done.
  rewrite <- IH. by destruct (split_first sep s) as [[a' b']|].
Qed.

Lemma prefix_char (c d : Ascii.ascii) (s : string) :
  String.prefix (String c "") (String d s) = bool_decide (c = d).
Proof.
  cbn. destruct (Ascii.ascii_dec c d) as [->|Hne].
  - rewrite bool_decide_eq_true_2 by done. by destruct s.
  - by rewrite bool_decide_eq_false_2.
Qed.

Lemma split_first_char (c : Ascii.ascii) (k v : string) :
  str_contains (String c "") k = false →
  split_first (String c "") (k +:+ String c "" +:+ v) = Some (k, v).
Proof.
  induction k as [|d k IH]; intros Hk.
  - change (split_first (String c "") (String c v) = Some (""%string, v)).
    cbn [split_first]. rewrite prefix_char, bool_decide_eq_true_2 by done.
    done.
  - change (split_first (String c "") (String d (k +:+ String c "" +:+ v))
            = Some (String d k, v)).
    cbn [str_contains] in Hk. apply orb_false_iff in Hk as [Hp Hk].
    rewrite prefix_char in Hp. cbn [split_first].
    rewrite prefix_char, Hp, (IH Hk). done.
Qed.

Lemma split_first_before (c : Ascii.ascii) (s a b : string) :
  split_first (String c "") s = Some (a, b) →
  str_contains (String c "") a = false.
Proof.
  revert a. induction s as [|d s IH]; intros a; cbn [split_first].
  - intros Hs. cbv in Hs. discriminate Hs.
  - rewrite prefix_char. case_bool_decide as Hcd.
    + by intros [= <- _].
    + destruct (split_first (String c "") s) as [[a' b']|] eqn:Hs; [|done].
      intros [= <- <-]. cbn [str_contains].
      rewrite prefix_char, bool_decide_eq_false_2 by done.
      cbn [orb]. by apply IH.
Qed.

(** One round of the loop, by the first [=] of the token. *)
Lemma parse_legacy_arg_spec parsed arg :
  EmojiRanking.parse_legacy_arg parsed arg
  = Some match split_first "=" arg with
         | Some (key, value) =>
             if decide (key ≠ EmptyString) then <[key := value]> parsed
             else parsed
         | None => parsed
         end.
Proof.
  unfold EmojiRanking.parse_legacy_arg, str_partition.
  destruct (str_contains "=" arg) eqn:Hc; cbn [negb].
  - case_decide; [done|].
    destruct (split_first "=" arg) as [[key value]|] eqn:Hs.
    + by case_decide.
    + apply split_first_None in Hs. congruence.
  - apply split_first_None in Hc. by rewrite Hc.
Qed.

Lemma parse_legacy_loop_app l1 l2 parsed :
  EmojiRanking.parse_legacy_loop (l1 ++ l2) parsed
  = EmojiRanking.parse_legacy_loop l1 parsed
      ≫= EmojiRanking.parse_legacy_loop l2.
Proof.
  revert parsed. induction l1 as [|arg l1 IH]; intros parsed; [done|].
  cbn [app EmojiRanking.parse_legacy_loop].
  rewrite parse_legacy_arg_spec. apply IH.
Qed.

Lemma parse_legacy_loop_total raw_args parsed :
  is_Some (EmojiRanking.parse_legacy_loop raw_args parsed).
Proof.
  revert parsed. induction raw_args as [|arg l IH]; intros parsed; [by eexists|].
  cbn [EmojiRanking.parse_legacy_loop]. rewrite parse_legacy_arg_spec. apply IH.
Qed.

Lemma parse_legacy_loop_sound raw_args : ∀ parsed0 parsed key value,
  EmojiRanking.parse_legacy_loop raw_args parsed0 = Some parsed →
  parsed !! key = Some value →
  parsed0 !! key = Some value ∨
  (key ≠ EmptyString ∧ str_contains "=" key = false ∧
   (key +:+ "=" +:+ value) ∈ raw_args).
Proof.
  induction raw_args as [|arg l IH]; intros parsed0 parsed key value.
  - intros [= <-]. by left.
  - cbn [EmojiRanking.parse_legacy_loop]. rewrite parse_legacy_arg_spec.
    intros Hloop Hkey.
    destruct (IH _ _ _ _ Hloop Hkey) as [Hin|(Hne & Hc & Hin)].
    + destruct (split_first "=" arg) as [[k v]|] eqn:Hs; [|by left].
      case_decide as Hk; [|by left].
      destruct (decide (k = key)) as [->|Hdiff].
      * rewrite lookup_insert_eq in Hin. injection Hin as ->.
        right. split; [done|]. split.
        -- exact (split_first_before _ _ _ _ Hs).
        -- apply split_first_Some in Hs as ->. left.
      * rewrite lookup_insert_ne in Hin by done. by left.
    + right. split; [done|]. split; [done|]. by right.
Qed.

Lemma parse_legacy_loop_keeps key raw_args : ∀ parsed0,
  (∀ arg value, arg ∈ raw_args → arg ≠ key +:+ "=" +:+ value) →
  ∃ parsed, EmojiRanking.parse_legacy_loop raw_args parsed0 = Some parsed ∧
            parsed !! key = parsed0 !! key.
Proof.
  induction raw_args as [|arg l IH]; intros parsed0 Hno; [by eexists|].
  cbn [EmojiRanking.parse_legacy_loop]. rewrite parse_legacy_arg_spec.
  match goal with
  | |- context [EmojiRanking.parse_legacy_loop l ?p] =>
      destruct (IH p) as (parsed & Hp & Hk)
  end.
  { intros a v Ha. apply Hno. by right. }
  exists parsed. split; [done|]. rewrite Hk.
  destruct (split_first "=" arg) as [[k v]|] eqn:Hs; [|done].
  case_decide; [|done].
  apply lookup_insert_ne. intros ->.
  apply split_first_Some in Hs. eapply Hno; [left|exact Hs].
Qed.

(** X15: parsing the tokens of a prefix command never raises, and every
    entry of the dict it returns comes from a token: its key is not empty,
    holds no [=], and the token [key=value] is among the arguments. *)
Theorem parse_legacy_args_sound raw_args :
  ∃ parsed, EmojiRanking._parse_legacy_args raw_args = Some parsed ∧
    ∀ key value, parsed !! key = Some value →
      key ≠ EmptyString ∧ str_contains "=" key = false ∧
      (key +:+ "=" +:+ value) ∈ raw_args.
Proof.
  unfold EmojiRanking._parse_legacy_args.
  destruct (parse_legacy_loop_total raw_args ∅) as [parsed Hp].
  exists parsed. split; [done|]. intros key value Hk.
  destruct (parse_legacy_loop_sound _ _ _ _ _ Hp Hk) as [Hin|H]; [|done].
  by rewrite lookup_empty in Hin.
Qed.

(** X16: a token without [=], and a token that starts with [=] and so has
    an empty key, changes nothing: the result is that of the arguments
    without it. *)
Theorem parse_legacy_args_skips l1 arg l2 :
  str_contains "=" arg = false ∨ String.prefix "=" arg = true →
  EmojiRanking._parse_legacy_args (l1 ++ arg :: l2)
  = EmojiRanking._parse_legacy_args (l1 ++ l2).
Proof.
  intros Harg. unfold EmojiRanking._parse_legacy_args.
  rewrite !parse_legacy_loop_app.
  destruct (EmojiRanking.parse_legacy_loop l1 ∅) as [parsed|]; [|done].
  cbn [mbind option_bind EmojiRanking.parse_legacy_loop].
  rewrite parse_legacy_arg_spec.
  destruct Harg as [Hc|Hp].
  - apply split_first_None in Hc. by rewrite Hc.
  - destruct arg as [|c arg]; cbn [split_first]; rewrite Hp; [done|].
    by case_decide.
Qed.

Lemma parse_legacy_args_skips_witness :
  EmojiRanking._parse_legacy_args ["rank=3"; "please"; "=5"; "bot=true"]%string
  = EmojiRanking._parse_legacy_args ["rank=3"; "bot=true"]%string.
Proof.
  assert (str_contains "=" "please" = false) as Hplain by reflexivity.
  assert (String.prefix "=" "=5" = true) as Hempty by reflexivity.
  exact (eq_trans
           (parse_legacy_args_skips ["rank=3"]%string "please"
              ["=5"; "bot=true"]%string (or_introl Hplain))
           (parse_legacy_args_skips ["rank=3"]%string "=5"
              ["bot=true"]%string (or_intror Hempty))).
Defined.

(** X17: the last token of a key decides its value: after a token
    [key=value] with a key that is not empty and holds no [=], and no
    later token that starts with [key=], the dict maps [key] to [value],
    whatever comes before. *)
Theorem parse_legacy_args_last_wins l1 l2 key value :
  key ≠ EmptyString →
  str_contains "=" key = false →
  (∀ arg value', arg ∈ l2 → arg ≠ key +:+ "=" +:+ value') →
  ∃ parsed,
    EmojiRanking._parse_legacy_args (l1 ++ (key +:+ "=" +:+ value) :: l2)
    = Some parsed ∧
    parsed !! key = Some value.
Proof.
  intros Hne Hc Hno. unfold EmojiRanking._parse_legacy_args.
  rewrite parse_legacy_loop_app.
  destruct (parse_legacy_loop_total l1 ∅) as [parsed1 ->].
  cbn [mbind option_bind EmojiRanking.parse_legacy_loop].
  rewrite parse_legacy_arg_spec, (split_first_char _ key value Hc).
  rewrite decide_True by done.
  destruct (parse_legacy_loop_keeps key l2 (<[key:=value]> parsed1) Hno)
    as (parsed & Hp & Hk).
  exists parsed. split; [done|]. by rewrite Hk, lookup_insert_eq.
Qed.

Lemma parse_legacy_args_last_wins_witness :
  ∃ parsed,
    EmojiRanking._parse_legacy_args
      ["rank=3"; "order=a=b"; "rank=5"; "bot=true"]%string = Some parsed ∧
    parsed !! "rank"%string = Some "5"%string.
Proof.
  apply (parse_legacy_args_last_wins ["rank=3"; "order=a=b"]%string
           ["bot=true"]%string "rank" "5").
  - discriminate.
  - reflexivity.
  - intros arg value' Harg. apply list_elem_of_singleton in Harg as ->.
    discriminate.
Defined.

(** ** The tallies of a whole run *)

(** The tallies of the counters of a guild after its messages are counted. *)
Lemma fresh_tallies self emojis batches h :
  ∃ counters h0 h1,
    EmojiRanking.new_counters emojis h = Some (counters, h0) ∧
    EmojiRanking.count_channels self counters batches h0 = Some (counters, h1) ∧
    Forall2 (λ r e,
      tally _EmojiCountType.MESSAGE_CONTENT h1 r
      = Some (Z.of_nat (length (filter (text_qualifies self e)
                                  (concat batches)))) ∧
      tally _EmojiCountType.MESSAGE_REACTION h1 r
      = Some (Z.of_nat (length (filter (λ reaction,
                                   reaction_matches e reaction ∧
                                   reaction_qualifies self reaction)
                                  (concat batches ≫= Message.reactions)))))
      counters emojis.
Proof.
  destruct (new_counters_run emojis h)
    as (counters & h0 & Hnew & Hnd & _ & _ & Hinit).
  assert (counting h0 counters) as Hc0.
  { intros r Hr. apply list_elem_of_lookup in Hr as [i Hi].
    destruct (Forall2_lookup_l _ _ _ _ _ Hinit Hi) as (e & _ & He).
    exists (_EmojiCounter.__init__ e). split; [done|].
    intros ty. by rewrite (init_counts e ty). }
  eexists counters, h0, _. split; [done|].
  split; [by apply count_channels_run|].
  apply Forall2_same_length_lookup. split; [by eapply Forall2_length|].
  intros i r e Hi He.
  pose proof (Forall2_lookup_lr _ _ _ _ _ _ Hinit Hi He) as Hr. simpl in Hr.
  assert (r ∈ counters) as Hin by (apply list_elem_of_lookup; eauto).
  destruct (pass_ops_counts self h0 counters (concat batches) r _ Hnd Hin Hr)
    as [Hcontent Hreaction].
  assert (∀ ty, tally ty h0 r = Some 0) as Hz.
  { intros ty. unfold tally. rewrite Hr. exact (init_counts e ty). }
  rewrite !tally_apply_ops, !Hz, Hcontent, Hreaction. done.
Qed.

Lemma append_assoc (a b c : string) : (a +:+ b) +:+ c = a +:+ (b +:+ c).
Proof.
  induction a as [|x a IH]; [done|].
  change (String x ((a +:+ b) +:+ c) = String x (a +:+ (b +:+ c))).
  by rewrite IH.
Qed.

Lemma str_contains_trans (a b s : string) :
  str_contains a b = true → str_contains b s = true → str_contains a s = true.
Proof.
  rewrite !str_contains_spec. intros (x & y & ->) (u & v & ->).
  exists (u +:+ x), (y +:+ v). by rewrite !append_assoc.
Qed.

Lemma length_filter_mono {A} (P Q : A → Prop)
    `{!∀ x, Decision (P x)} `{!∀ x, Decision (Q x)} (l : list A) :
  (∀ x, x ∈ l → P x → Q x) →
  (length (filter P l) ≤ length (filter Q l))%nat.
Proof.
  induction l as [|x l IH]; intros HPQ; [done|].
  assert (length (filter P l) ≤ length (filter Q l))%nat as Hl.
  { apply IH. intros y Hy. apply HPQ. by right. }
  rewrite !filter_cons. destruct (decide (P x)) as [HP|HP].
  - rewrite decide_True by (apply HPQ; [left|done]). simpl. lia.
  - case_decide; simpl; lia.
Qed.

(** X18: what [_execute] has counted when it turns to the ranking: the
    content count of an emoji is the number of messages read whose text
    holds its name and whose author passes the user filter and the bot
    guard; its reaction count is the number of reaction entries on the
    messages read that are this custom emoji and whose users, after the
    user filter, are not none and pass the bot guard. *)
Theorem execute_tallies self emojis batches h :
  ∃ counters h0 h1,
    EmojiRanking.new_counters emojis h = Some (counters, h0) ∧
    EmojiRanking.count_channels self counters batches h0 = Some (counters, h1) ∧
    Forall2 (λ r e,
      observe (Counter.content_count r) h1
      = Some (Z.of_nat (length (filter (text_qualifies self e)
                                  (concat batches)))) ∧
      observe (Counter.reaction_count r) h1
      = Some (Z.of_nat (length (filter (λ reaction,
                                   reaction_matches e reaction ∧
                                   reaction_qualifies self reaction)
                                  (concat batches ≫= Message.reactions)))))
      counters emojis.
Proof.
  destruct (fresh_tallies self emojis batches h)
    as (counters & h0 & h1 & Hnew & Hrun & Htally).
  exists counters, h0, h1. split; [done|]. split; [done|].
  eapply Forall2_impl; [exact Htally|].
  intros r e [Hcontent Hreaction].
  by rewrite observe_content_tally, observe_reaction_tally.
Qed.

(** X19: names are matched as plain text: when the name of one emoji of
    the guild occurs inside the name of another, every message counted for
    the longer name is counted for the shorter one as well, so the content
    count of the shorter name is at least that of the longer. *)
Theorem name_inside_name self emojis batches h :
  ∃ counters h0 h1,
    EmojiRanking.new_counters emojis h = Some (counters, h0) ∧
    EmojiRanking.count_channels self counters batches h0 = Some (counters, h1) ∧
    ∀ i j short long r_short r_long,
      emojis !! i = Some short → emojis !! j = Some long →
      counters !! i = Some r_short → counters !! j = Some r_long →
      str_contains (Emoji.name short) (Emoji.name long) = true →
      ∃ n_short n_long,
        observe (Counter.content_count r_short) h1 = Some n_short ∧
        observe (Counter.content_count r_long) h1 = Some n_long ∧
        n_long ≤ n_short.
Proof.
  destruct (fresh_tallies self emojis batches h)
    as (counters & h0 & h1 & Hnew & Hrun & Htally).
  exists counters, h0, h1. split; [done|]. split; [done|].
  intros i j short long r_short r_long Hi Hj Hri Hrj Hsub.
  destruct (Forall2_lookup_lr _ _ _ _ _ _ Htally Hri Hi) as [Hs _].
  destruct (Forall2_lookup_lr _ _ _ _ _ _ Htally Hrj Hj) as [Hl _].
  eexists _, _. rewrite !observe_content_tally.
  split; [exact Hs|]. split; [exact Hl|].
  apply inj_le, length_filter_mono.
  intros m _ (Hin & Hauthor & Hbot). split; [|done].
  by eapply str_contains_trans.
Qed.

(** ** The token of the bot *)

(** X20: the script starts the bot exactly when one of the two variables
    holds a token that is not empty, never with an empty token:
    [DISCORD_TOKEN] is used when it is set and not empty, and
    [DISCORD_BOT_TOKEN] only when [DISCORD_TOKEN] is unset or empty. *)
Theorem bot_token environ token :
  Bot.main environ = Bot.Run token ↔
  token ≠ EmptyString ∧
  (environ !! "DISCORD_TOKEN"%string = Some token ∨
   ((environ !! "DISCORD_TOKEN"%string = None ∨
     environ !! "DISCORD_TOKEN"%string = Some EmptyString) ∧
    environ !! "DISCORD_BOT_TOKEN"%string = Some token)).
Proof.
  unfold Bot.main, Bot.truthy.
  destruct (environ !! "DISCORD_TOKEN"%string) as [first|];
    [case_bool_decide as Hfirst; cbn [negb]|cbn [negb]].
  - rewrite bool_decide_eq_true_2 by done. split.
    + intros [= <-]. split; [done|]. by left.
    + intros [Hne [[= <-]|[[?|[= ->]] _]]]; done.
  - subst first.
    destruct (environ !! "DISCORD_BOT_TOKEN"%string) as [second|].
    + case_bool_decide as Hsecond; split.
      * intros [= <-]. split; [done|]. right. split; [by right|done].
      * intros [Hne [[= <-]|[_ [= <-]]]]; done.
      * done.
      * intros [Hne [[= <-]|[_ [= <-]]]]; done.
    + split; [done|]. intros [Hne [[= <-]|[_ [=]]]]. done.
  - destruct (environ !! "DISCORD_BOT_TOKEN"%string) as [second|].
    + case_bool_decide as Hsecond; split.
      * intros [= <-]. split; [done|]. right. split; [by left|done].
      * intros [Hne [[=]|[_ [= <-]]]]; done.
      * done.
      * intros [Hne [[=]|[_ [= <-]]]]; done.
    + split; [done|]. intros [Hne [[=]|[_ [=]]]].
Qed.
